(** * Target lookup and imputation ([baybe/simulation/lookup.py])

    A shallow embedding of [look_up_targets], [_lookup_targets_from_callable],
    [_lookup_targets_from_dataframe] and [_impute_lookup], together with the
    small part of pandas/numpy these functions rely on.

    Data model.
    - A cell is a number, a string label, the missing value or the empty
      tuple.  Numbers are exact rationals: the rounding of floating-point
      sums is not modelled, comparisons and copies are exact.
    - A data frame is its list of column labels and its rows, each row being
      the list of its cells in column order.  Rows carry the default
      positional index [0 .. n-1], and column labels are looked up by their
      first occurrence.
    - The query frame is mutated in place by the Python code.  It is therefore
      a component of an explicit program state, threaded through a state and
      exception monad, together with the warnings emitted so far and the
      number of random draws consumed.  An exception leaves the state as it
      was when it was raised.
    - [np.random.choice] reads a stream of draws [entropy]; draw number [d]
      picks position [entropy d mod n] among [n] candidates.
    - [Series.mean], [max], [min], [idxmin] and [idxmax] skip missing
      entries, as pandas does by default; a cell that is not a number makes
      them raise.  The [max] and [min] of a column without entries are the
      Python float [nan], which, unlike a numpy scalar, has no [flatten].
    - The assignment [queries.loc[:, target_names] = ...] adds the missing
      columns before it writes; with a repeated target name it raises
      after having added them.

    The statements about tables, columns, cells and matching rows are
    phrased on the lists of labels and rows of a frame ([has_cell],
    [is_column], [matches]), and related to the indexing functions of the
    model by lemmas. *)

From Stdlib Require Import QArith Qminmax Qabs Qround Sorted Lqa.
From stdpp Require Import base list strings.

(** ** Cells *)

Inductive value : Type :=
| VNum (q : Q)        (* an int or a float *)
| VStr (s : string)   (* a categorical label *)
| VNaN                (* the missing value *)
| VTuple0.            (* the empty tuple [()] *)

(** Elementwise [==] of pandas: numbers by value, labels by characters,
    and a missing value is equal to nothing, itself included. *)
Definition value_eqb (a b : value) : bool :=
  match a, b with
  | VNum x, VNum y => Qeq_bool x y
  | VStr s, VStr t => String.eqb s t
  | VTuple0, VTuple0 => true
  | _, _ => false
  end.

Definition isna (v : value) : bool :=
  match v with VNaN => true | _ => false end.

(** ** Exceptions *)

Inductive assertion : Type :=
| WrongTargetCount        (* "make sure the configuration has the right
                             amount of targets specified" *)
| SearchSpaceNotReduced.  (* "Something went wrong for impute_mode 'ignore'" *)

(** The first group is what [lookup.py] and the pandas/numpy calls it makes
    can raise.  [IndexError] carries the row quoted in its message.
    The last three are the error names used by the specification; no
    statement of [lookup.py] raises them. *)
Inductive exn : Type :=
| AssertionError (a : assertion)
| IndexError (row : list value)
| KeyError
| TypeError
| ValueError
| AttributeError
| ConfigurationError
| InvariantViolation
| LookupMissError (row : list value).

Definition result (A : Type) : Type := exn + A.

Definition ok {A} (a : A) : result A := inr a.
Definition throw {A} (e : exn) : result A := inl e.

Definition rbind {A B} (r : result A) (k : A -> result B) : result B :=
  match r with
  | inl e => inl e
  | inr a => k a
  end.

Notation "'let?' x ':=' r 'in' k" := (rbind r (fun x => k))
  (at level 10, x name, r at level 100, k at level 200).

Fixpoint rmap {A B} (f : A -> result B) (l : list A) : result (list B) :=
  match l with
  | [] => ok []
  | a :: l' =>
      let? b := f a in
      let? bs := rmap f l' in
      ok (b :: bs)
  end.

Fixpoint rfold {A B} (f : B -> A -> result B) (l : list A) (b : B) : result B :=
  match l with
  | [] => ok b
  | a :: l' => let? b' := f b a in rfold f l' b'
  end.

(** ** Data frames *)

Record DataFrame : Type := mkFrame {
  columns : list string;
  data : list (list value)
}.

(** Every row has one cell per column. *)
Definition wf_frame (df : DataFrame) : Prop :=
  Forall (fun r => length r = length (columns df)) (data df).

(** [df.index] with the default positional labels. *)
Definition index (df : DataFrame) : list nat := seq 0 (length (data df)).

(** [Index.get_loc]: position of a column label, [KeyError] when absent. *)
Fixpoint get_loc (cols : list string) (c : string) : result nat :=
  match cols with
  | [] => throw KeyError
  | c' :: cols' =>
      if String.eqb c' c then ok 0
      else let? j := get_loc cols' c in ok (S j)
  end.

Definition cell (r : list value) (j : nat) : value := default VNaN (r !! j).

(** [df[c]] / [df.loc[:, c]]: one column as a series. *)
Definition loc_column (df : DataFrame) (c : string) : result (list value) :=
  let? j := get_loc (columns df) c in
  ok (map (fun r => cell r j) (data df)).

(** [df.loc[:, cs]]: rows restricted to the listed columns, in that order. *)
Definition loc_columns (df : DataFrame) (cs : list string)
  : result (list (list value)) :=
  let? js := rmap (get_loc (columns df)) cs in
  ok (map (fun r => map (cell r) js) (data df)).

(** [df.loc[i, cs].values]. *)
Definition loc_row (df : DataFrame) (i : nat) (cs : list string)
  : result (list value) :=
  let? js := rmap (get_loc (columns df)) cs in
  match data df !! i with
  | None => throw KeyError
  | Some r => ok (map (cell r) js)
  end.

(** [df.loc[i, c]]. *)
Definition loc_cell (df : DataFrame) (i : nat) (c : string) : result value :=
  let? j := get_loc (columns df) c in
  match data df !! i with
  | None => throw KeyError
  | Some r => ok (cell r j)
  end.

(** [(sub == row).all(axis=1, skipna=False)]. *)
Definition eq_all (sub : list (list value)) (row : list value) : list bool :=
  map (fun r => forallb (fun p => value_eqb p.1 p.2) (zip r row)) sub.

(** [df[mask].index.values]: the labels of the rows selected by a mask. *)
Fixpoint where_true (i : nat) (mask : list bool) : list nat :=
  match mask with
  | [] => []
  | b :: mask' =>
      if b then i :: where_true (S i) mask' else where_true (S i) mask'
  end.

(** The indexing expression of lines 88-90:
    [lookup[(lookup.loc[:, row.index] == row).all(axis=1, skipna=False)]
       .index.values]
    where [row.index] is the list of query columns. *)
Definition matching_index (lookup : DataFrame) (qcols : list string)
    (row : list value) : result (list nat) :=
  let? sub := loc_columns lookup qcols in
  ok (where_true 0 (eq_all sub row)).

(** ** Assignment [df.loc[:, keys] = arr] *)

(** Labels of [keys] that are not yet columns are appended, filled with
    missing values. *)
Definition add_column (df : DataFrame) (k : string) : DataFrame :=
  match get_loc (columns df) k with
  | inr _ => df
  | inl _ => mkFrame (columns df ++ [k]) (map (fun r => r ++ [VNaN]) (data df))
  end.

Definition ensure_columns (df : DataFrame) (keys : list string) : DataFrame :=
  fold_left add_column keys df.

Definition set_cell (cols : list string) (r : list value)
    (kv : string * value) : list value :=
  match get_loc cols kv.1 with
  | inr j => <[j := kv.2]> r
  | inl _ => r
  end.

(** One row of the assignment: the values go to the columns of [keys]
    position by position, left to right. *)
Definition set_row (cols keys : list string) (r vals : list value)
  : list value :=
  fold_left (set_cell cols) (zip keys vals) r.

(** The frame after a successful assignment [df.loc[:, keys] = arr] with
    distinct [keys]; [arr] holds one list of values per row of [df]. *)
Definition write_columns (df : DataFrame) (keys : list string)
    (arr : list (list value)) : DataFrame :=
  let d := ensure_columns df keys in
  mkFrame (columns d) (zip_with (set_row (columns d) keys) (data d) arr).

(** [df[k] = series]. *)
Definition setitem_column (df : DataFrame) (k : string) (s : list value)
  : DataFrame :=
  write_columns df [k] (map (fun v => [v]) s).

(** Reading back: the cell of row [i] in column [c]. *)
Definition at_ (df : DataFrame) (i : nat) (c : string) : option value :=
  match get_loc (columns df) c, data df !! i with
  | inr j, Some r => r !! j
  | _, _ => None
  end.

(** A label occurs more than once in [keys]. *)
Fixpoint repeated (keys : list string) : bool :=
  match keys with
  | [] => false
  | k :: keys' => existsb (String.eqb k) keys' || repeated keys'
  end.

Definition is_column_of (df : DataFrame) (k : string) : bool :=
  existsb (String.eqb k) (columns df).

(** The columns [df.loc[:, keys] = arr] adds before it assigns: every label
    of [keys] that is not a column yet, once per occurrence in [keys],
    filled with missing values. *)
Definition append_missing (df : DataFrame) (keys : list string) : DataFrame :=
  let new := List.filter (fun k => negb (is_column_of df k)) keys in
  mkFrame (columns df ++ new)
          (map (fun r => r ++ replicate (length new) VNaN) (data df)).

(** ** Series reductions and numpy scalars *)

(** The numbers of a series with its missing values skipped ([skipna=True]).
    Cells that are not numeric make the reduction raise. *)
Fixpoint numeric_values (s : list value) : result (list Q) :=
  match s with
  | [] => ok []
  | VNum q :: s' => let? qs := numeric_values s' in ok (q :: qs)
  | VNaN :: s' => numeric_values s'
  | _ :: _ => throw TypeError
  end.

(** [Series.mean()] as pandas' [nanmean] computes it: the sum of the entries,
    the missing ones counting as zero, divided by the number of entries that
    are not missing; [nan] when that number is zero. *)
Definition fillna0 (v : value) : result Q :=
  match v with
  | VNum q => ok q
  | VNaN => ok 0%Q
  | _ => throw TypeError
  end.

Definition series_sum (s : list value) : result Q :=
  rfold (fun acc v => let? q := fillna0 v in ok (acc + q)%Q) s 0%Q.

Definition notna_count (s : list value) : nat :=
  length (List.filter (fun v => negb (isna v)) s).

Definition series_mean (s : list value) : result value :=
  let? the_sum := series_sum s in
  let count := notna_count s in
  if count =? 0 then ok VNaN
  else ok (VNum (the_sum / inject_Z (Z.of_nat count))).

(** What an indexing or reduction expression evaluates to: a numpy scalar
    (a cell of an array), the Python float [nan], or a pandas series. *)
Inductive pyobj : Type :=
| Scalar (v : value)
| PyFloatNaN
| Series (s : list value).

(** [Series.max()] and [Series.min()].  On a series without entries the
    reduction gives the Python float [nan]; otherwise a numpy scalar: the
    extremum of the numbers, or [nan] when every entry is missing. *)
Definition series_max (s : list value) : result pyobj :=
  match s with
  | [] => ok PyFloatNaN
  | _ :: _ =>
      let? qs := numeric_values s in
      match qs with
      | [] => ok (Scalar VNaN)
      | q :: qs' => ok (Scalar (VNum (fold_left Qmax qs' q)))
      end
  end.

Definition series_min (s : list value) : result pyobj :=
  match s with
  | [] => ok PyFloatNaN
  | _ :: _ =>
      let? qs := numeric_values s in
      match qs with
      | [] => ok (Scalar VNaN)
      | q :: qs' => ok (Scalar (VNum (fold_left Qmin qs' q)))
      end
  end.

(** [series - c] for a scalar [c]. *)
Definition series_sub (s : list value) (c : Q) : result (list value) :=
  rmap (fun v => match v with
                 | VNum q => ok (VNum (q - c))
                 | VNaN => ok VNaN
                 | _ => throw TypeError
                 end) s.

(** [Series.abs()]. *)
Definition series_abs (s : list value) : list value :=
  map (fun v => match v with VNum q => VNum (Qabs q) | _ => v end) s.

(** Scan for the first position holding the best number seen, where
    [better q b] says that [q] strictly beats the current best [b]. *)
Fixpoint arg_scan (better : Q -> Q -> bool) (i : nat) (s : list value)
    (best : option (nat * Q)) : option (nat * Q) :=
  match s with
  | [] => best
  | VNum q :: s' =>
      arg_scan better (S i) s'
        (match best with
         | None => Some (i, q)
         | Some (j, b) => if better q b then Some (i, q) else Some (j, b)
         end)
  | _ :: s' => arg_scan better (S i) s' best
  end.

Definition Qlt_bool (a b : Q) : bool := negb (Qle_bool b a).

(** [Series.idxmin()] / [Series.idxmax()]: label of the first occurrence of
    the extremum, [ValueError] when there is nothing to compare. *)
Definition idxmin (s : list value) : result nat :=
  match arg_scan Qlt_bool 0 s None with
  | Some (j, _) => ok j
  | None => throw ValueError
  end.

Definition idxmax (s : list value) : result nat :=
  match arg_scan (fun q b => Qlt_bool b q) 0 s None with
  | Some (j, _) => ok j
  | None => throw ValueError
  end.

(** [obj.flatten()[0]].  Numpy scalars have [flatten], which gives the
    one-element array of the scalar itself.  Python floats, strings, tuples
    and pandas series have no such attribute. *)
Definition flatten0 (o : pyobj) : result value :=
  match o with
  | Scalar (VNum q) => ok (VNum q)
  | Scalar VNaN => ok VNaN
  | Scalar (VStr _) => throw AttributeError
  | Scalar VTuple0 => throw AttributeError
  | PyFloatNaN => throw AttributeError
  | Series _ => throw AttributeError
  end.

(** A cell used as a row label of a frame with [n] rows: only an
    integer-valued number in [0 .. n-1] is a label of the index. *)
Definition as_label (n : nat) (v : value) : result nat :=
  match v with
  | VNum q =>
      let z := Qfloor q in
      if Qeq_bool (inject_Z z) q && (0 <=? z)%Z && (z <? Z.of_nat n)%Z
      then ok (Z.to_nat z)
      else throw KeyError
  | _ => throw KeyError
  end.

(** [df.loc[keys, c]] with a list-like [keys] of row labels: the series of
    the cells of column [c] at these labels, [KeyError] when a key is not a
    label of the index. *)
Definition loc_rows_cell (df : DataFrame) (keys : list value) (c : string)
  : result (list value) :=
  let? j := get_loc (columns df) c in
  let? labels := rmap (as_label (length (data df))) keys in
  ok (map (fun i => cell (default [] (data df !! i)) j) labels).

(** [df.loc[i,]]: the row with label [i], as a series over the columns. *)
Definition loc_row_series (df : DataFrame) (i : nat) : result (list value) :=
  match data df !! i with
  | None => throw KeyError
  | Some r => ok r
  end.

(** ** Targets *)

Inductive TargetMode : Type := MAX | MIN | MATCH.

(** Modelled from the spec: [baybe.utils.interval.Interval] is not part of
    the sources at hand; a target's bounds are an interval with a centre,
    the midpoint of its two ends. *)
Record Interval : Type := mkInterval { lower : Q; upper : Q }.

Definition center (b : Interval) : Q := ((lower b + upper b) / 2)%Q.

(** Modelled from the spec: [baybe.targets.NumericalTarget] is not part of
    the sources at hand; [lookup.py] reads its [name], [mode] and
    [bounds.center]. *)
Record Target : Type := mkTarget {
  name : string;
  mode : TargetMode;
  bounds : Interval
}.

(** ** Program state and the state/exception monad *)

Record world : Type := mkWorld {
  queries : DataFrame;          (* the caller's frame, mutated in place *)
  warnings : list (list nat);   (* duplicate indexes reported so far *)
  draws : nat                   (* random draws consumed so far *)
}.

Definition M (A : Type) : Type := world -> world * result A.

Definition ret {A} (a : A) : M A := fun w => (w, inr a).
Definition raise {A} (e : exn) : M A := fun w => (w, inl e).
Definition lift {A} (r : result A) : M A := fun w => (w, r).

Definition bind {A B} (m : M A) (k : A -> M B) : M B :=
  fun w =>
    match m w with
    | (w', inl e) => (w', inl e)
    | (w', inr a) => k a w'
    end.

Notation "'let*' x ':=' m 'in' k" := (bind m (fun x => k))
  (at level 10, x name, m at level 100, k at level 200).

Definition get_queries : M DataFrame := fun w => (w, inr (queries w)).

Definition modify_queries (f : DataFrame -> DataFrame) : M unit :=
  fun w => (mkWorld (f (queries w)) (warnings w) (draws w), inr tt).

(** The statement [queries.loc[:, keys] = arr], [arr] holding one list of
    values per row.  The missing columns are added first.  With distinct
    [keys] the values are then written.  With a repeated label the added
    columns carry that label more than once, the array no longer fits the
    selected columns and [ValueError] is raised after the columns were
    added; only on a frame without rows, where nothing is to be written,
    does the statement still go through. *)
Definition loc_setitem (keys : list string) (arr : list (list value))
  : M unit :=
  fun w =>
    if repeated keys then
      let w' := mkWorld (append_missing (queries w) keys)
                        (warnings w) (draws w) in
      match arr with
      | [] => (w', inr tt)
      | _ :: _ => (w', inl ValueError)
      end
    else
      (mkWorld (write_columns (queries w) keys arr) (warnings w) (draws w),
       inr tt).

(** [warnings.warn(...)] about the duplicated lookup rows [ind]. *)
Definition warn (ind : list nat) : M unit :=
  fun w => (mkWorld (queries w) (warnings w ++ [ind]) (draws w), inr tt).

(** The loop body run on every element in order, results collected. *)
Fixpoint for_each {A B} (body : A -> M B) (l : list A) : M (list B) :=
  match l with
  | [] => ret []
  | a :: l' =>
      let* b := body a in
      let* bs := for_each body l' in
      ret (b :: bs)
  end.

(** A computation that never touches the query frame. *)
Definition keeps_queries {A} (m : M A) : Prop :=
  forall w, queries (m w).1 = queries w.

(** ** The functions of [lookup.py] *)

Section Lookup.

(** The stream of random draws behind [np.random.choice]. *)
Variable entropy : nat -> nat.

(** [baybe.utils.add_fake_results] is an external collaborator: any
    state transformer. *)
Variable add_fake_results : list Target -> M unit.

(** [np.random.choice(l)]. *)
Definition random_choice (l : list nat) : M nat :=
  fun w =>
    match l with
    | [] => (w, inl ValueError)
    | _ :: _ =>
        (mkWorld (queries w) (warnings w) (S (draws w)),
         inr (nth (Nat.modulo (entropy (draws w)) (length l)) l 0))
    end.

(** One iteration of the loop of lines 155-168 (mode ["worst"]). *)
Definition worst_target (lookup : DataFrame) (worst_vals : list value)
    (target : Target) : result (list value) :=
  let? worst_vals :=
    match mode target with
    | MAX =>
        let? s := loc_column lookup (name target) in
        let? m := series_min s in
        let? v := flatten0 m in
        ok (worst_vals ++ [v])
    | MIN =>
        let? s := loc_column lookup (name target) in
        let? m := series_max s in
        let? v := flatten0 m in
        ok (worst_vals ++ [v])
    | MATCH => ok worst_vals
    end in
  match mode target with
  | MATCH =>
      let? s := loc_column lookup (name target) in
      let? d := series_sub s (center (bounds target)) in
      let? i := idxmax (series_abs d) in
      let? keys := loc_row_series lookup i in
      let? sel := loc_rows_cell lookup keys (name target) in
      let? v := flatten0 (Series sel) in
      ok (worst_vals ++ [v])
  | _ => ok worst_vals
  end.

(** One iteration of the loop of lines 172-185 (mode ["best"]).  In the
    [MATCH] branch the inner [lookup.loc[idxmin,]] is the whole row of the
    closest observation, and the outer [lookup.loc[row, name]] uses the
    cells of that row as row labels. *)
Definition best_target (lookup : DataFrame) (best_vals : list value)
    (target : Target) : result (list value) :=
  let? best_vals :=
    match mode target with
    | MAX =>
        let? s := loc_column lookup (name target) in
        let? m := series_max s in
        let? v := flatten0 m in
        ok (best_vals ++ [v])
    | MIN =>
        let? s := loc_column lookup (name target) in
        let? m := series_min s in
        let? v := flatten0 m in
        ok (best_vals ++ [v])
    | MATCH => ok best_vals
    end in
  match mode target with
  | MATCH =>
      let? s := loc_column lookup (name target) in
      let? d := series_sub s (center (bounds target)) in
      let? i := idxmin (series_abs d) in
      let? keys := loc_row_series lookup i in
      let? sel := loc_rows_cell lookup keys (name target) in
      let? v := flatten0 (Series sel) in
      ok (best_vals ++ [v])
  | _ => ok best_vals
  end.

(** One iteration of the loop of lines 190-191 (mode ["random"]). *)
Definition random_target (lookup : DataFrame) (randindex : nat)
    (vals : list value) (target : Target) : result (list value) :=
  let? c := loc_cell lookup randindex (name target) in
  let? v := flatten0 (Scalar c) in
  ok (vals ++ [v]).

Definition _impute_lookup (row : list value) (lookup : DataFrame)
    (targets : list Target) (impute_mode : string) : M (list value) :=
  let target_names := map name targets in
  if String.eqb impute_mode "mean" then
    lift (let? cols := rmap (loc_column lookup) target_names in
          rmap series_mean cols)
  else if String.eqb impute_mode "worst" then
    lift (rfold (worst_target lookup) targets [])
  else if String.eqb impute_mode "best" then
    lift (rfold (best_target lookup) targets [])
  else if String.eqb impute_mode "random" then
    let* randindex := random_choice (index lookup) in
    lift (rfold (random_target lookup randindex) targets [])
  else
    raise (IndexError row).

(** The body of the loop of lines 86-119 for one query row; [qcols] is
    [row.index], the columns of the query frame. *)
Definition match_vals_of (targets : list Target) (lookup : DataFrame)
    (impute_mode : string) (qcols : list string) (row : list value)
  : M (list value) :=
  let target_names := map name targets in
  let* ind := lift (matching_index lookup qcols row) in
  match ind with
  | _ :: _ :: _ =>                                    (* len(ind) > 1 *)
      let* _ := warn ind in
      let* i := random_choice ind in
      lift (loc_row lookup i target_names)
  | [] =>                                             (* len(ind) < 1 *)
      if String.eqb impute_mode "ignore" then
        raise (AssertionError SearchSpaceNotReduced)
      else
        _impute_lookup row lookup targets impute_mode
  | [i0] =>                                           (* exactly one *)
      lift (loc_row lookup i0 target_names)
  end.

Definition _lookup_targets_from_dataframe (targets : list Target)
    (lookup : DataFrame) (impute_mode : string) : M unit :=
  let target_names := map name targets in
  let* q := get_queries in
  let* all_match_vals :=
    for_each (match_vals_of targets lookup impute_mode (columns q)) (data q) in
  loc_setitem target_names all_match_vals.

(** [pd.DataFrame(tuples)]: one column per position of the longest tuple,
    shorter tuples padded with missing values. *)
Definition tuple_width (tuples : list (list value)) : nat :=
  fold_right (fun t w => Nat.max (length t) w) 0 tuples.

Definition split_columns (tuples : list (list value))
  : nat * list (list value) :=
  let w := tuple_width tuples in
  (w, map (fun t => t ++ replicate (w - length t) VNaN) tuples).

(** Lines 65-72.  [measured_targets] starts as the frame with the single
    column [0] holding the returned tuples; the columns [0 .. w-1] of the
    split frame are then assigned to it.  With [w >= 1] that replaces
    column [0]; with [w = 0] nothing is assigned and column [0] keeps the
    tuples, all of them empty.  The result is the pair of [shape[1]] and
    the rows. *)
Definition measured_targets_of (tuples : list (list value))
  : nat * list (list value) :=
  let split_target_columns := split_columns tuples in
  match split_target_columns.1 with
  | 0 => (1, map (fun _ => [VTuple0]) tuples)
  | S _ => split_target_columns
  end.

(** Lines 79-80. *)
Fixpoint assign_targets (k_target : nat) (targets : list Target)
    (measured : list (list value)) : M unit :=
  match targets with
  | [] => ret tt
  | target :: targets' =>
      let* _ := modify_queries (fun q =>
                  setitem_column q (name target)
                    (map (fun r => cell r k_target) measured)) in
      assign_targets (S k_target) targets' measured
  end.

(** The callable is applied to the cells of each row; it returns a tuple
    or raises.  On a frame without rows there is no tuple, and
    [measured_targets] is the frame with the single, empty column [0]. *)
Definition _lookup_targets_from_callable (targets : list Target)
    (lookup : list value -> result (list value)) : M unit :=
  let* q := get_queries in
  let* tuples := lift (rmap lookup (data q)) in
  let measured_targets := measured_targets_of tuples in
  if negb (measured_targets.1 =? length targets) then
    raise (AssertionError WrongTargetCount)
  else
    assign_targets 0 targets measured_targets.2.

(** The [lookup] argument: [None], a callable, a data frame, or any other
    object. *)
Inductive lookup_source : Type :=
| LookupNone
| LookupCallable (f : list value -> result (list value))
| LookupFrame (df : DataFrame)
| LookupOther.

Definition look_up_targets (targets : list Target) (lookup : lookup_source)
    (impute_mode : string) : M unit :=
  match lookup with
  | LookupNone => add_fake_results targets
  | LookupCallable f => _lookup_targets_from_callable targets f
  | LookupFrame df => _lookup_targets_from_dataframe targets df impute_mode
  | LookupOther => ret tt
  end.

End Lookup.

(** The impute modes listed by the signature of [look_up_targets]. *)
Definition recognized_modes : list string :=
  ["error"; "worst"; "best"; "mean"; "random"; "ignore"].

(** ** The notions used by the specification *)

(** The arithmetic mean: the sum of the values divided by how many there
    are. *)
Definition Qsum (qs : list Q) : Q := fold_right Qplus 0%Q qs.

Definition arithmetic_mean (qs : list Q) : Q :=
  (Qsum qs / inject_Z (Z.of_nat (length qs)))%Q.

(** [v] is the mean of a column whose numbers are [qs]: the missing value
    for a column without numbers. *)
Definition is_mean_of (qs : list Q) (v : value) : Prop :=
  match qs with
  | [] => v = VNaN
  | _ :: _ => exists m, v = VNum m /\ (m == arithmetic_mean qs)%Q
  end.

(** [m] is the largest, respectively smallest, of the numbers [qs]. *)
Definition is_max_of (qs : list Q) (m : Q) : Prop :=
  m ∈ qs /\ forall q, q ∈ qs -> (q <= m)%Q.

Definition is_min_of (qs : list Q) (m : Q) : Prop :=
  m ∈ qs /\ forall q, q ∈ qs -> (m <= q)%Q.

(** [v] is the most favourable observation of a [MAX] or [MIN] target in a
    column whose numbers are [qs]. *)
Definition is_best_of (md : TargetMode) (qs : list Q) (v : value) : Prop :=
  match qs with
  | [] => v = VNaN
  | _ :: _ =>
      exists m, v = VNum m /\
        match md with
        | MAX => is_max_of qs m
        | MIN => is_min_of qs m
        | MATCH => False
        end
  end.

(** The table has at least one row, and none of its target columns holds a
    missing value. *)
Definition complete_targets (lookup : DataFrame) (targets : list Target)
  : Prop :=
  data lookup <> [] /\
  forall t s, t ∈ targets -> loc_column lookup (name t) = inr s ->
    VNaN ∉ s.

(** *** Frames read cell by cell

    The notions below say what a frame holds in terms of its lists of
    labels and rows alone, without the indexing functions of the model. *)

(** [j] is the first position of the label [c]. *)
Definition first_position (cols : list string) (c : string) (j : nat) : Prop :=
  cols !! j = Some c /\ forall j', j' < j -> cols !! j' <> Some c.

(** Row [i] of [df] holds [v] in column [c]. *)
Definition has_cell (df : DataFrame) (i : nat) (c : string) (v : value)
  : Prop :=
  exists j r, first_position (columns df) c j /\
              data df !! i = Some r /\ r !! j = Some v.

(** [s] is column [c] of [df]: its cells, row by row. *)
Definition is_column (df : DataFrame) (c : string) (s : list value) : Prop :=
  exists j, first_position (columns df) c j /\
            Forall2 (fun r v => r !! j = Some v) (data df) s.

(** The numbers of a series, its missing entries left out. *)
Inductive numbers_of : list value -> list Q -> Prop :=
| numbers_nil : numbers_of [] []
| numbers_num q s qs : numbers_of s qs -> numbers_of (VNum q :: s) (q :: qs)
| numbers_nan s qs : numbers_of s qs -> numbers_of (VNaN :: s) qs.

(** Row [j] of the table matches the query row: on every query column the
    table row holds a cell equal, under the elementwise [==], to the cell
    of the query row. *)
Definition matches (lookup : DataFrame) (qcols : list string)
    (row : list value) (j : nat) : Prop :=
  j < length (data lookup) /\
  forall k c v, qcols !! k = Some c -> row !! k = Some v ->
    exists x, has_cell lookup j c x /\ value_eqb x v = true.

(** [j] is the one table row matching the query row. *)
Definition only_match (lookup : DataFrame) (qcols : list string)
    (row : list value) (j : nat) : Prop :=
  matches lookup qcols row j /\
  forall j', matches lookup qcols row j' -> j' = j.

(** No table row matches the query row. *)
Definition unmatched (lookup : DataFrame) (qcols : list string)
    (row : list value) : Prop :=
  forall j, ~ matches lookup qcols row j.

(** The table has at least one row and no missing value in a target
    column. *)
Definition no_missing_targets (lookup : DataFrame) (targets : list Target)
  : Prop :=
  data lookup <> [] /\
  forall t i v, t ∈ targets -> has_cell lookup i (name t) v -> v <> VNaN.

(** ** Example data

    The reference table, target and queries of the end-to-end example of
    the specification: a table with rows [T=25, flow=10, Yield=50] and
    [T=80, flow=100, Yield=90], and one target [Yield]. *)

Definition num (z : Z) : value := VNum (inject_Z z).

Definition example_table : DataFrame :=
  mkFrame ["T"; "flow"; "Yield"]
          [[num 25; num 10; num 50]; [num 80; num 100; num 90]].

(** A table whose only row has no measured [Yield]. *)
Definition gapped_table : DataFrame :=
  mkFrame ["T"; "flow"; "Yield"] [[num 25; num 10; VNaN]].

Definition yield_target (md : TargetMode) : Target :=
  mkTarget "Yield" md (mkInterval 40 70).

(** The state before a call on the query rows [rows]. *)
Definition start (rows : list (list value)) : world :=
  mkWorld (mkFrame ["T"; "flow"] rows) [] 0.

Definition matched_query : list value := [num 25; num 10].
Definition unmatched_query : list value := [num 50; num 50].

Definition zero_entropy : nat -> nat := fun _ => 0.
Definition no_fake_results : list Target -> M unit := fun _ => ret tt.

(** Callables returning two values, and none, whatever the row. *)
Definition two_values : list value -> result (list value) :=
  fun _ => ok [num 1; num 2].
Definition no_values : list value -> result (list value) :=
  fun _ => ok [].

(** ** Further notions and data *)

(** [v] is the least favourable observation of a [MAX] or [MIN] target in a
    column whose numbers are [qs]. *)
Definition is_worst_of (md : TargetMode) (qs : list Q) (v : value) : Prop :=
  match qs with
  | [] => v = VNaN
  | _ :: _ =>
      exists m, v = VNum m /\
        match md with
        | MAX => is_min_of qs m
        | MIN => is_max_of qs m
        | MATCH => False
        end
  end.

(** The modes for which [_impute_lookup] computes a value. *)
Definition imputing_modes : list string :=
  ["mean"; "worst"; "best"; "random"].

(** A table in which the parameter combination [T=25, flow=10] was measured
    twice. *)
Definition duplicated_table : DataFrame :=
  mkFrame ["T"; "flow"; "Yield"]
          [[num 25; num 10; num 50]; [num 80; num 100; num 90];
           [num 25; num 10; num 60]].

(** A callable returning one value, the sum of the two parameters. *)
Definition sum_of_parameters : list value -> result (list value) :=
  fun row =>
    match row with
    | [VNum a; VNum b] => ok [VNum (a + b)]
    | _ => throw TypeError
    end.

(** ** Scaling of a Latin hypercube sample ([CCR/initilization.py])

    Lines 63-65 map every column [i] of the unit-cube sample to the range
    [(low, high)] of parameter [i] and round it to the nearest integer.
    The sample itself comes from [pyDOE2.lhs] and is an input here. *)

(** [np.round]: the nearest integer, a half going to the even neighbour. *)
Definition round_half_even (q : Q) : Z :=
  let f := Qfloor q in
  match ((q - inject_Z f) ?= 1 # 2)%Q with
  | Lt => f
  | Gt => (f + 1)%Z
  | Eq => if Z.even f then f else (f + 1)%Z
  end.

(** One cell: [np.round(u * (high - low) + low)]. *)
Definition scale_cell (range : Z * Z) (u : Q) : Z :=
  let (low, high) := range in
  round_half_even (u * inject_Z (high - low) + inject_Z low).

(** The loop over [enumerate(param_ranges.items())] seen from one row of the
    sample: cell [i] is scaled with range [i] and stays a float, cells
    beyond the last range are left alone, and a range without a cell is the
    [IndexError] of [lhs_sample[:, i]], here [None]. *)
Fixpoint scale_params (param_ranges : list (Z * Z)) (params : list Q)
  : option (list Q) :=
  match param_ranges, params with
  | [], _ => Some params
  | range :: ranges', u :: params' =>
      match scale_params ranges' params' with
      | Some rest => Some (inject_Z (scale_cell range u) :: rest)
      | None => None
      end
  | _ :: _, [] => None
  end.

Fixpoint scale_sample (param_ranges : list (Z * Z))
    (lhs_sample : list (list Q)) : option (list (list Q)) :=
  match lhs_sample with
  | [] => Some []
  | params :: sample' =>
      match scale_params param_ranges params,
            scale_sample param_ranges sample' with
      | Some row, Some rows => Some (row :: rows)
      | _, _ => None
      end
  end.

(** The ranges of the script. *)
Definition script_ranges : list (Z * Z) :=
  [(25, 80); (10, 100); (10, 1000); (100, 300)]%Z.

(** * Properties *)

(** ** The exception layer *)

Lemma rbind_inr {A B} (r : result A) (k : A -> result B) (b : B) :
  rbind r k = inr b <-> exists a, r = inr a /\ k a = inr b.
Proof.
  destruct r as [e|a]; simpl; split.
  - discriminate.
  - intros (a & Ha & _). discriminate.
  - eauto.
  - intros (a' & Ha & Hk). by inversion Ha.
Qed.

Lemma rmap_length {A B} (f : A -> result B) (l : list A) (bs : list B) :
  rmap f l = inr bs -> length bs = length l.
Proof.
  revert bs. induction l as [|a l IH]; simpl; intros bs H.
  - by inversion H.
  - apply rbind_inr in H as (b & _ & H).
    apply rbind_inr in H as (bs' & Hbs & H).
    inversion H; subst. simpl. f_equal. by apply IH.
Qed.

Lemma rmap_lookup {A B} (f : A -> result B) (l : list A) (bs : list B) i a :
  rmap f l = inr bs -> l !! i = Some a ->
  exists b, f a = inr b /\ bs !! i = Some b.
Proof.
  revert bs i. induction l as [|a' l IH]; simpl; intros bs i H Hi.
  - done.
  - apply rbind_inr in H as (b & Hb & H).
    apply rbind_inr in H as (bs' & Hbs & H).
    inversion H; subst.
    destruct i as [|i]; simpl in *.
    + inversion Hi; subst. eauto.
    + eauto.
Qed.

Lemma rmap_total {A B} (f : A -> result B) (l : list A) :
  (forall a, a ∈ l -> exists b, f a = inr b) ->
  exists bs, rmap f l = inr bs.
Proof.
  induction l as [|a l IH]; simpl; intros H.
  - by eexists.
  - destruct (H a) as (b & ->); [by left|].
    destruct IH as (bs & ->); [intros; apply H; by right|].
    simpl. by eexists.
Qed.

Lemma rmap_map {A B} (f : A -> result B) (g : A -> B) (l : list A) :
  (forall a, a ∈ l -> f a = inr (g a)) -> rmap f l = inr (map g l).
Proof.
  induction l as [|a l IH]; simpl; intros H; [done|].
  rewrite H; [|by left]. simpl. rewrite IH; [done|].
  intros; apply H; by right.
Qed.

Lemma rmap_ext {A B} (f g : A -> result B) (l : list A) :
  (forall a, a ∈ l -> f a = g a) -> rmap f l = rmap g l.
Proof.
  induction l as [|a l IH]; simpl; intros H; [done|].
  rewrite H; [|by left]. rewrite IH; [done|].
  intros; apply H; by right.
Qed.

(** ** Column labels *)

Lemma get_loc_lookup cols c j :
  get_loc cols c = inr j -> cols !! j = Some c.
Proof.
  revert j. induction cols as [|c' cols IH]; simpl; intros j H; [done|].
  destruct (String.eqb c' c) eqn:E.
  - inversion H; subst. apply String.eqb_eq in E. by subst.
  - apply rbind_inr in H as (j' & Hj' & H). inversion H; subst.
    simpl. by apply IH.
Qed.

Lemma get_loc_lt cols c j :
  get_loc cols c = inr j -> j < length cols.
Proof. intros H. eapply lookup_lt_Some, get_loc_lookup, H. Qed.

Lemma get_loc_inj cols c c' j :
  get_loc cols c = inr j -> get_loc cols c' = inr j -> c = c'.
Proof.
  intros H H'. apply get_loc_lookup in H, H'. congruence.
Qed.

Lemma get_loc_elem cols c :
  c ∈ cols -> exists j, get_loc cols c = inr j.
Proof.
  induction cols as [|c' cols IH]; simpl; intros H.
  - by apply elem_of_nil in H.
  - destruct (String.eqb c' c) eqn:E; [by eexists|].
    apply elem_of_cons in H as [->|H].
    + by rewrite String.eqb_refl in E.
    + destruct (IH H) as (j & ->). by eexists.
Qed.

Lemma get_loc_app_l cols extra c j :
  get_loc cols c = inr j -> get_loc (cols ++ extra) c = inr j.
Proof.
  revert j. induction cols as [|c' cols IH]; simpl; intros j H; [done|].
  destruct (String.eqb c' c); [done|].
  apply rbind_inr in H as (j' & Hj' & H). inversion H; subst.
  by rewrite (IH _ Hj').
Qed.

(** ** Writing target columns *)

Lemma add_column_wf df k : wf_frame df -> wf_frame (add_column df k).
Proof.
  unfold wf_frame, add_column. intros H.
  destruct (get_loc (columns df) k); [|done]. simpl.
  apply Forall_map. eapply Forall_impl; [exact H|].
  intros r Hr. simpl. rewrite !length_app, Hr. done.
Qed.

Lemma add_column_length df k :
  length (data (add_column df k)) = length (data df).
Proof.
  unfold add_column. destruct (get_loc (columns df) k); [|done].
  simpl. by rewrite length_map.
Qed.

Lemma add_column_keeps df k c j :
  get_loc (columns df) c = inr j ->
  get_loc (columns (add_column df k)) c = inr j.
Proof.
  unfold add_column. intros H.
  destruct (get_loc (columns df) k); [|done]. simpl.
  by apply get_loc_app_l.
Qed.

Lemma add_column_has df k :
  exists j, get_loc (columns (add_column df k)) k = inr j.
Proof.
  unfold add_column. destruct (get_loc (columns df) k) as [e|j] eqn:E.
  - simpl. apply get_loc_elem, elem_of_app. right. by left.
  - by exists j.
Qed.

Lemma ensure_columns_wf df keys :
  wf_frame df -> wf_frame (ensure_columns df keys).
Proof.
  unfold ensure_columns. revert df.
  induction keys as [|k keys IH]; simpl; intros df H; [done|].
  by apply IH, add_column_wf.
Qed.

Lemma ensure_columns_length df keys :
  length (data (ensure_columns df keys)) = length (data df).
Proof.
  unfold ensure_columns. revert df.
  induction keys as [|k keys IH]; simpl; intros df; [done|].
  by rewrite IH, add_column_length.
Qed.

Lemma ensure_columns_keeps df keys c j :
  get_loc (columns df) c = inr j ->
  get_loc (columns (ensure_columns df keys)) c = inr j.
Proof.
  unfold ensure_columns. revert df.
  induction keys as [|k keys IH]; simpl; intros df H; [done|].
  by apply IH, add_column_keeps.
Qed.

Lemma ensure_columns_has df keys c :
  c ∈ keys -> exists j, get_loc (columns (ensure_columns df keys)) c = inr j.
Proof.
  unfold ensure_columns. revert df.
  induction keys as [|k keys IH]; simpl; intros df H.
  - by apply elem_of_nil in H.
  - apply elem_of_cons in H as [->|H]; [|by apply IH].
    destruct (add_column_has df k) as (j & Hj). exists j.
    by apply (ensure_columns_keeps (add_column df k) keys).
Qed.

Lemma set_cell_length cols r kv : length (set_cell cols r kv) = length r.
Proof.
  unfold set_cell. destruct (get_loc cols kv.1); [done|].
  by rewrite length_insert.
Qed.

(** After the cells of one row have been assigned, the cell of column [c]
    satisfies every property shared by the values assigned to [c], as soon
    as one value is assigned to [c] or the old cell had the property. *)
Lemma fold_set_cell_lookup cols c j (Q : value -> Prop) kvs r :
  get_loc cols c = inr j -> j < length r ->
  (forall v', (c, v') ∈ kvs -> Q v') ->
  (exists v, r !! j = Some v /\ Q v) \/ (exists v', (c, v') ∈ kvs) ->
  exists v, fold_left (set_cell cols) kvs r !! j = Some v /\ Q v.
Proof.
  intros Hc. revert r.
  induction kvs as [|[c' v'] kvs IH]; simpl; intros r Hj HQ Hor.
  - destruct Hor as [H|(v' & H)]; [done|]. by apply elem_of_nil in H.
  - apply IH.
    + by rewrite set_cell_length.
    + intros v'' H. apply HQ. by right.
    + unfold set_cell. simpl.
      destruct (get_loc cols c') as [e|j'] eqn:E.
      * destruct Hor as [H|(v'' & H)]; [by left|].
        apply elem_of_cons in H as [H|H]; [|right; eauto].
        inversion H; subst. congruence.
      * destruct (decide (j' = j)) as [->|Hne].
        -- left. exists v'. split; [by apply list_lookup_insert_eq|].
           apply HQ. rewrite (get_loc_inj _ _ _ _ Hc E). by left.
        -- rewrite list_lookup_insert_ne by done.
           destruct Hor as [H|(v'' & H)]; [by left|].
           apply elem_of_cons in H as [H|H]; [|right; eauto].
           inversion H; subst. congruence.
Qed.

Lemma set_row_lookup cols keys c j (Q : value -> Prop) r vals :
  get_loc cols c = inr j -> j < length r ->
  c ∈ keys -> length vals = length keys ->
  (forall v', (c, v') ∈ zip keys vals -> Q v') ->
  exists v, set_row cols keys r vals !! j = Some v /\ Q v.
Proof.
  intros Hc Hj Hin Hlen HQ. unfold set_row.
  apply (fold_set_cell_lookup _ c); [done..|]. right.
  apply list_elem_of_lookup in Hin as (k & Hk).
  destruct (lookup_lt_is_Some_2 vals k) as (v' & Hv').
  { rewrite Hlen. by eapply lookup_lt_Some. }
  exists v'. apply list_elem_of_lookup. exists k.
  rewrite lookup_zip_with, Hk. simpl. by rewrite Hv'.
Qed.

(** Reading a target column back after [df.loc[:, keys] = arr]. *)
Lemma write_columns_at df keys arr i c (Q : value -> Prop) vals :
  wf_frame df -> i < length (data df) ->
  arr !! i = Some vals -> length vals = length keys ->
  c ∈ keys ->
  (forall v', (c, v') ∈ zip keys vals -> Q v') ->
  exists v, at_ (write_columns df keys arr) i c = Some v /\ Q v.
Proof.
  intros Hwf Hi Harr Hlen Hin HQ.
  destruct (ensure_columns_has df keys c Hin) as (j & Hj).
  destruct (lookup_lt_is_Some_2 (data (ensure_columns df keys)) i)
    as (r & Hr); [by rewrite ensure_columns_length|].
  unfold at_, write_columns. simpl. rewrite Hj.
  rewrite lookup_zip_with, Hr. simpl. rewrite Harr. simpl.
  apply (set_row_lookup _ _ c); [done| |done..].
  pose proof (ensure_columns_wf df keys Hwf) as Hwf'.
  unfold wf_frame in Hwf'. rewrite Forall_forall in Hwf'.
  rewrite (Hwf' r); [by eapply get_loc_lt|].
  eapply list_elem_of_lookup_2, Hr.
Qed.

(** ** The state layer *)

Lemma bind_inr {A B} (m : M A) (k : A -> M B) w w' b :
  bind m k w = (w', inr b) <->
  exists w1 a, m w = (w1, inr a) /\ k a w1 = (w', inr b).
Proof.
  unfold bind. destruct (m w) as [w1 [e|a]]; split.
  - discriminate.
  - intros (? & ? & H & _). discriminate.
  - eauto.
  - intros (? & ? & H & Hk). by inversion H; subst.
Qed.

Lemma bind_inl {A B} (m : M A) (k : A -> M B) w w' e :
  bind m k w = (w', inl e) <->
  m w = (w', inl e) \/ exists w1 a, m w = (w1, inr a) /\ k a w1 = (w', inl e).
Proof.
  unfold bind. destruct (m w) as [w1 [e1|a]]; split.
  - intros H. inversion H; subst. by left.
  - intros [H|(? & ? & H & _)]; [by inversion H; subst | discriminate].
  - intros H. right. eauto.
  - intros [H|(? & ? & H & Hk)]; [discriminate|]. by inversion H; subst.
Qed.

Lemma keeps_ret {A} (a : A) : keeps_queries (ret a).
Proof. done. Qed.

Lemma keeps_raise {A} e : keeps_queries (@raise A e).
Proof. done. Qed.

Lemma keeps_lift {A} (r : result A) : keeps_queries (lift r).
Proof. done. Qed.

Lemma keeps_warn ind : keeps_queries (warn ind).
Proof. done. Qed.

Lemma keeps_bind {A B} (m : M A) (k : A -> M B) :
  keeps_queries m -> (forall a, keeps_queries (k a)) ->
  keeps_queries (bind m k).
Proof.
  intros Hm Hk w. unfold bind. specialize (Hm w).
  destruct (m w) as [w1 [e|a]]; simpl in *; [done|].
  by rewrite Hk.
Qed.

Lemma keeps_for_each {A B} (body : A -> M B) l :
  (forall a, keeps_queries (body a)) -> keeps_queries (for_each body l).
Proof.
  intros Hb. induction l as [|a l IH]; simpl; [apply keeps_ret|].
  apply keeps_bind; [done|]. intros b.
  apply keeps_bind; [done|]. intros bs. apply keeps_ret.
Qed.

Lemma for_each_inr {A B} (body : A -> M B) l w w' bs :
  for_each body l w = (w', inr bs) ->
  length bs = length l /\
  forall i a, l !! i = Some a ->
    exists w1 w2 b, body a w1 = (w2, inr b) /\ bs !! i = Some b.
Proof.
  revert w bs. induction l as [|a l IH]; simpl; intros w bs H.
  - inversion H; subst. done.
  - apply bind_inr in H as (w1 & b & Hb & H).
    apply bind_inr in H as (w2 & bs' & Hbs & H).
    inversion H; subst. destruct (IH _ _ Hbs) as (Hlen & Hall).
    split; [simpl; by f_equal|].
    intros [|i] a' Hi; simpl in *.
    + inversion Hi; subst. eauto.
    + eauto.
Qed.

(** The loop stops at the first element whose body raises: when every
    element either always returns, or has property [P] and always raises
    [E], and one of the latter kind is present, the loop raises [E] of such
    an element. *)
Lemma for_each_first_failure {A B} (body : A -> M B) (E : A -> exn)
    (P : A -> Prop) l w :
  (forall a, a ∈ l ->
     (forall w1, exists w2 b, body a w1 = (w2, inr b)) \/
     (P a /\ forall w1, exists w2, body a w1 = (w2, inl (E a)))) ->
  (exists a, a ∈ l /\ forall w1, exists w2, body a w1 = (w2, inl (E a))) ->
  exists w' a, a ∈ l /\ P a /\ for_each body l w = (w', inl (E a)).
Proof.
  revert w. induction l as [|a l IH]; intros w Hall (a0 & Hin & Hbad).
  - by apply elem_of_nil in Hin.
  - simpl. unfold bind at 1.
    destruct (Hall a) as [Hgood|[HP Hfail]]; [by left| |].
    + destruct (Hgood w) as (w2 & b & Hb). rewrite Hb.
      apply elem_of_cons in Hin as [->|Hin].
      { destruct (Hbad w) as (w3 & Hw3). congruence. }
      destruct (IH w2) as (w' & a1 & Hin1 & HP1 & Hrun).
      { intros; apply Hall; by right. }
      { eauto. }
      exists w', a1. split; [by right|]. split; [done|].
      unfold bind. by rewrite Hrun.
    + destruct (Hfail w) as (w2 & Hw2). rewrite Hw2.
      exists w2, a. split; [by left|]. done.
Qed.

Section LookupProperties.

Variable entropy : nat -> nat.
Variable add_fake_results : list Target -> M unit.

Lemma keeps_random_choice l : keeps_queries (random_choice entropy l).
Proof. intros w. unfold random_choice. by destruct l. Qed.

Lemma keeps_impute_lookup row lookup targets impute_mode :
  keeps_queries (_impute_lookup entropy row lookup targets impute_mode).
Proof.
  unfold _impute_lookup.
  repeat (case_match; [apply keeps_lift|]).
  case_match; [|apply keeps_raise].
  apply keeps_bind; [apply keeps_random_choice|].
  intros; apply keeps_lift.
Qed.

Lemma keeps_match_vals_of targets lookup impute_mode qcols row :
  keeps_queries (match_vals_of entropy targets lookup impute_mode qcols row).
Proof.
  unfold match_vals_of. apply keeps_bind; [apply keeps_lift|].
  intros [|i0 [|i1 ind]].
  - case_match; [apply keeps_raise | apply keeps_impute_lookup].
  - apply keeps_lift.
  - apply keeps_bind; [apply keeps_warn|]. intros _.
    apply keeps_bind; [apply keeps_random_choice|].
    intros; apply keeps_lift.
Qed.

Lemma repeated_false keys : NoDup keys -> repeated keys = false.
Proof.
  induction 1 as [|k keys Hk _ IH]; simpl; [done|].
  rewrite IH, orb_false_r.
  destruct (existsb (String.eqb k) keys) eqn:E; [|done].
  apply existsb_exists in E as (k' & Hin & Heq).
  apply String.eqb_eq in Heq. subst k'.
  by apply list_elem_of_In in Hin.
Qed.

Lemma loc_setitem_distinct keys arr w :
  NoDup keys ->
  loc_setitem keys arr w =
    (mkWorld (write_columns (queries w) keys arr) (warnings w) (draws w),
     inr tt).
Proof. intros H. unfold loc_setitem. by rewrite repeated_false. Qed.

(** An exception raised inside the row loop ends the call, and the query
    frame is still the caller's: the only assignment of
    [_lookup_targets_from_dataframe] is its last statement. *)
Lemma dataframe_lookup_loop_failure targets lookup impute_mode w w' e :
  for_each (match_vals_of entropy targets lookup impute_mode
              (columns (queries w))) (data (queries w)) w = (w', inl e) ->
  _lookup_targets_from_dataframe entropy targets lookup impute_mode w
    = (w', inl e) /\
  queries w' = queries w.
Proof.
  intros H. split.
  - unfold _lookup_targets_from_dataframe, bind at 1, get_queries.
    unfold bind. by rewrite H.
  - pose proof (keeps_for_each
      (match_vals_of entropy targets lookup impute_mode (columns (queries w)))
      (data (queries w))
      (keeps_match_vals_of targets lookup impute_mode _) w) as Hk.
    by rewrite H in Hk.
Qed.

(** With distinct target names the last statement cannot raise, so that
    every exception of the call leaves the query frame as it was. *)
Lemma dataframe_lookup_failure_keeps_queries targets lookup impute_mode w w' e :
  NoDup (map name targets) ->
  _lookup_targets_from_dataframe entropy targets lookup impute_mode w
    = (w', inl e) ->
  queries w' = queries w.
Proof.
  unfold _lookup_targets_from_dataframe. intros Hnd H.
  apply bind_inl in H as [H|(w1 & q & Hq & H)]; [discriminate|].
  inversion Hq; subst.
  apply bind_inl in H as [H|(w2 & vals & _ & H)].
  - by apply dataframe_lookup_loop_failure in H as (_ & H).
  - rewrite loc_setitem_distinct in H by done. discriminate.
Qed.

(** *** Shape of the collected values *)

Lemma rfold_length {A} (f : list value -> A -> result (list value)) l b b' :
  (forall acc a acc', f acc a = inr acc' -> length acc' = S (length acc)) ->
  rfold f l b = inr b' -> length b' = length b + length l.
Proof.
  intros Hf. revert b. induction l as [|a l IH]; simpl; intros b H.
  - inversion H; subst. lia.
  - apply rbind_inr in H as (b1 & Hb1 & H).
    rewrite (IH _ H), (Hf _ _ _ Hb1). lia.
Qed.

(** The [MATCH] branch never produces a value: its last step asks a
    pandas series for [flatten]. *)
Lemma match_branch_raises lookup (pick : list value -> result nat)
    (vals : list value) target :
  exists e,
    (let? s := loc_column lookup (name target) in
     let? d := series_sub s (center (bounds target)) in
     let? i := pick (series_abs d) in
     let? keys := loc_row_series lookup i in
     let? sel := loc_rows_cell lookup keys (name target) in
     let? v := flatten0 (Series sel) in
     ok (vals ++ [v])) = inl e.
Proof.
  destruct (loc_column lookup (name target)) as [e|s]; simpl; [eauto|].
  destruct (series_sub s (center (bounds target))) as [e|d]; simpl; [eauto|].
  destruct (pick (series_abs d)) as [e|i]; simpl; [eauto|].
  destruct (loc_row_series lookup i) as [e|keys]; simpl; [eauto|].
  destruct (loc_rows_cell lookup keys (name target)) as [e|sel]; simpl; eauto.
Qed.

Lemma best_target_length lookup acc target acc' :
  best_target lookup acc target = inr acc' -> length acc' = S (length acc).
Proof.
  unfold best_target. intros H.
  destruct (mode target) eqn:Em.
  - apply rbind_inr in H as (acc1 & H1 & H). inversion H; subst.
    apply rbind_inr in H1 as (s & _ & H1).
    apply rbind_inr in H1 as (m & _ & H1).
    apply rbind_inr in H1 as (v & _ & H1). inversion H1; subst.
    rewrite length_app. simpl. lia.
  - apply rbind_inr in H as (acc1 & H1 & H). inversion H; subst.
    apply rbind_inr in H1 as (s & _ & H1).
    apply rbind_inr in H1 as (m & _ & H1).
    apply rbind_inr in H1 as (v & _ & H1). inversion H1; subst.
    rewrite length_app. simpl. lia.
  - apply rbind_inr in H as (acc1 & H1 & H).
    destruct (match_branch_raises lookup idxmin acc1 target) as (e & He).
    rewrite He in H. discriminate.
Qed.

Lemma worst_target_length lookup acc target acc' :
  worst_target lookup acc target = inr acc' -> length acc' = S (length acc).
Proof.
  unfold worst_target. intros H.
  destruct (mode target) eqn:Em.
  - apply rbind_inr in H as (acc1 & H1 & H). inversion H; subst.
    apply rbind_inr in H1 as (s & _ & H1).
    apply rbind_inr in H1 as (m & _ & H1).
    apply rbind_inr in H1 as (v & _ & H1). inversion H1; subst.
    rewrite length_app. simpl. lia.
  - apply rbind_inr in H as (acc1 & H1 & H). inversion H; subst.
    apply rbind_inr in H1 as (s & _ & H1).
    apply rbind_inr in H1 as (m & _ & H1).
    apply rbind_inr in H1 as (v & _ & H1). inversion H1; subst.
    rewrite length_app. simpl. lia.
  - apply rbind_inr in H as (acc1 & H1 & H).
    destruct (match_branch_raises lookup idxmax acc1 target) as (e & He).
    rewrite He in H. discriminate.
Qed.

Lemma random_target_length lookup i acc target acc' :
  random_target lookup i acc target = inr acc' ->
  length acc' = S (length acc).
Proof.
  unfold random_target. intros H.
  apply rbind_inr in H as (c & _ & H).
  apply rbind_inr in H as (v & _ & H). inversion H; subst.
  rewrite length_app. simpl. lia.
Qed.

Lemma loc_row_length df i cs vals :
  loc_row df i cs = inr vals -> length vals = length cs.
Proof.
  unfold loc_row. intros H. apply rbind_inr in H as (js & Hjs & H).
  destruct (data df !! i); [|discriminate]. inversion H; subst.
  rewrite length_map. by eapply rmap_length.
Qed.

Lemma impute_lookup_length row lookup targets impute_mode w w' vals :
  _impute_lookup entropy row lookup targets impute_mode w = (w', inr vals) ->
  length vals = length targets.
Proof.
  unfold _impute_lookup. intros H.
  destruct (String.eqb impute_mode "mean").
  { inversion H as [[Hw Hr]].
    apply rbind_inr in Hr as (cols & Hc & Hr).
    rewrite (rmap_length _ _ _ Hr), (rmap_length _ _ _ Hc).
    by rewrite length_map. }
  destruct (String.eqb impute_mode "worst").
  { inversion H as [[Hw Hr]].
    apply rfold_length in Hr; [done|]. apply worst_target_length. }
  destruct (String.eqb impute_mode "best").
  { inversion H as [[Hw Hr]].
    apply rfold_length in Hr; [done|]. apply best_target_length. }
  destruct (String.eqb impute_mode "random"); [|discriminate].
  apply bind_inr in H as (w1 & i & _ & H). inversion H as [[Hw Hr]].
  apply rfold_length in Hr; [done|]. apply random_target_length.
Qed.

Lemma match_vals_of_length targets lookup impute_mode qcols row w w' vals :
  match_vals_of entropy targets lookup impute_mode qcols row w
    = (w', inr vals) ->
  length vals = length targets.
Proof.
  unfold match_vals_of. intros H.
  apply bind_inr in H as (w1 & ind & _ & H).
  destruct ind as [|i0 [|i1 ind]].
  - destruct (String.eqb impute_mode "ignore"); [discriminate|].
    by eapply impute_lookup_length.
  - inversion H as [[Hw Hr]]. apply loc_row_length in Hr.
    by rewrite Hr, length_map.
  - apply bind_inr in H as (w2 & [] & _ & H).
    apply bind_inr in H as (w3 & i & _ & H).
    inversion H as [[Hw Hr]]. apply loc_row_length in Hr.
    by rewrite Hr, length_map.
Qed.

Lemma loc_row_zip df i cs vals c v :
  loc_row df i cs = inr vals -> (c, v) ∈ zip cs vals ->
  loc_cell df i c = inr v.
Proof.
  unfold loc_row, loc_cell. intros H Hin.
  apply rbind_inr in H as (js & Hjs & H).
  destruct (data df !! i) as [r|]; [|discriminate]. inversion H; subst.
  apply list_elem_of_lookup in Hin as (k & Hk).
  rewrite lookup_zip_with in Hk.
  destruct (cs !! k) as [c'|] eqn:Ec; [|done]. simpl in Hk.
  destruct (rmap_lookup _ _ _ _ _ Hjs Ec) as (j & Hj & Hjk).
  rewrite list_lookup_fmap, Hjk in Hk. simpl in Hk.
  inversion Hk; subst. by rewrite Hj.
Qed.

(** *** Rows with a match *)

Lemma where_true_bound i mask x :
  x ∈ where_true i mask -> i <= x < i + length mask.
Proof.
  revert i. induction mask as [|b mask IH]; simpl; intros i H.
  - by apply elem_of_nil in H.
  - destruct b.
    + apply elem_of_cons in H as [->|H]; [lia|]. apply IH in H. lia.
    + apply IH in H. lia.
Qed.

Lemma matching_index_bound lookup qcols row ind x :
  matching_index lookup qcols row = inr ind -> x ∈ ind ->
  x < length (data lookup).
Proof.
  unfold matching_index, loc_columns. intros H Hx.
  apply rbind_inr in H as (sub & Hsub & H). inversion H; subst.
  apply rbind_inr in Hsub as (js & _ & Hsub). inversion Hsub; subst.
  apply where_true_bound in Hx. unfold eq_all in Hx.
  rewrite !length_map in Hx. lia.
Qed.

(** Whether the selection of the query columns succeeds does not depend
    on the row. *)
Lemma matching_index_defined lookup qcols row row' ind :
  matching_index lookup qcols row = inr ind ->
  exists ind', matching_index lookup qcols row' = inr ind'.
Proof.
  unfold matching_index. intros H.
  apply rbind_inr in H as (sub & -> & _). simpl. by eexists.
Qed.

(** *** Frames read cell by cell

    The indexing functions of the model against the plain reading of a
    frame: its list of labels and its rows. *)

Lemma get_loc_first cols c j :
  get_loc cols c = inr j <-> first_position cols c j.
Proof.
  unfold first_position. revert j.
  induction cols as [|c' cols IH]; simpl; intros j.
  - split; [done | by intros (H & _)].
  - destruct (String.eqb_spec c' c) as [->|Hne].
    + split.
      * intros H. inversion H; subst. split; [done|]. intros j' Hj'. lia.
      * intros (Hj & Hfirst). destruct j as [|j]; [done|].
        exfalso. apply (Hfirst 0); [lia|done].
    + split.
      * intros H. apply rbind_inr in H as (j0 & Hj0 & H). inversion H; subst.
        apply IH in Hj0 as (Hj0 & Hfirst). split; [done|].
        intros [|j'] Hj'; simpl; [congruence|]. apply Hfirst. lia.
      * intros (Hj & Hfirst). destruct j as [|j]; simpl in Hj; [congruence|].
        assert (get_loc cols c = inr j) as ->; [|done].
        apply IH. split; [done|]. intros j' Hj'. apply (Hfirst (S j')). lia.
Qed.

Lemma at_has_cell df i c v : at_ df i c = Some v <-> has_cell df i c v.
Proof.
  unfold at_, has_cell. split.
  - destruct (get_loc (columns df) c) as [e|j] eqn:Hj; [done|].
    destruct (data df !! i) as [r|] eqn:Hr; [|done].
    intros Hv. exists j, r. split; [by apply get_loc_first | done].
  - intros (j & r & Hj & Hr & Hv). apply get_loc_first in Hj.
    by rewrite Hj, Hr.
Qed.

Lemma wf_row_cell df r j c :
  wf_frame df -> r ∈ data df -> get_loc (columns df) c = inr j ->
  r !! j = Some (cell r j).
Proof.
  intros Hwf Hr Hj. unfold wf_frame in Hwf. rewrite Forall_forall in Hwf.
  unfold cell. destruct (lookup_lt_is_Some_2 r j) as (x & ->); [|done].
  rewrite (Hwf r Hr). by eapply get_loc_lt.
Qed.

Lemma loc_cell_has_cell df i c v :
  wf_frame df -> loc_cell df i c = inr v -> has_cell df i c v.
Proof.
  intros Hwf H. unfold loc_cell in H.
  apply rbind_inr in H as (j & Hj & H).
  destruct (data df !! i) as [r|] eqn:Hr; [|done]. inversion H; subst.
  exists j, r. split; [by apply get_loc_first|]. split; [done|].
  eapply wf_row_cell; [done | by eapply list_elem_of_lookup_2 | done].
Qed.

Lemma has_cell_loc_cell df i c v :
  has_cell df i c v -> loc_cell df i c = inr v.
Proof.
  intros (j & r & Hj & Hr & Hv). apply get_loc_first in Hj.
  unfold loc_cell, cell. rewrite Hj. simpl. by rewrite Hr, Hv.
Qed.

Lemma is_column_loc df c s : is_column df c s -> loc_column df c = inr s.
Proof.
  intros (j & Hj & HF). apply get_loc_first in Hj. unfold loc_column.
  rewrite Hj. simpl. unfold ok. f_equal.
  induction HF as [|r v rows s Hv HF IH]; simpl; [done|].
  rewrite IH. unfold cell. by rewrite Hv.
Qed.

Lemma loc_is_column df c s :
  wf_frame df -> loc_column df c = inr s -> is_column df c s.
Proof.
  intros Hwf H. unfold loc_column in H. apply rbind_inr in H as (j & Hj & H).
  inversion H; subst. exists j. split; [by apply get_loc_first|].
  assert (forall rows, (forall r, r ∈ rows -> r ∈ data df) ->
            Forall2 (fun r v => r !! j = Some v) rows
                    (map (fun r => cell r j) rows)) as Hrows.
  { induction rows as [|r rows IH]; simpl; intros Hin; constructor.
    - eapply wf_row_cell; [done | apply Hin; by left | done].
    - apply IH. intros r' Hr'. apply Hin. by right. }
  by apply Hrows.
Qed.

Lemma numbers_of_numeric s qs :
  numbers_of s qs <-> numeric_values s = inr qs.
Proof.
  split.
  - induction 1 as [|q s qs _ IH|s qs _ IH]; simpl; [done| |done].
    by rewrite IH.
  - revert qs. induction s as [|v s IH]; simpl; intros qs H.
    + inversion H. constructor.
    + destruct v as [q| | |]; try discriminate.
      * apply rbind_inr in H as (qs' & Hqs' & H). inversion H; subst.
        constructor. by apply IH.
      * constructor. by apply IH.
Qed.

(** A table row matches when its cells, read through the model's
    indexing, compare equal to the cells of the query row. *)
Lemma matches_rows lookup qcols row j :
  matches lookup qcols row j <->
  exists r, data lookup !! j = Some r /\
    forall k c v, qcols !! k = Some c -> row !! k = Some v ->
      exists jc, get_loc (columns lookup) c = inr jc /\
                 value_eqb (cell r jc) v = true.
Proof.
  unfold matches. split.
  - intros (Hj & H). destruct (lookup_lt_is_Some_2 _ _ Hj) as (r & Hr).
    exists r. split; [done|]. intros k c v Hc Hv.
    destruct (H k c v Hc Hv) as (x & (jc & r' & Hjc & Hr' & Hx) & Heq).
    assert (r' = r) as -> by congruence.
    exists jc. split; [by apply get_loc_first|]. unfold cell. by rewrite Hx.
  - intros (r & Hr & H). split; [by eapply lookup_lt_Some|].
    intros k c v Hc Hv. destruct (H k c v Hc Hv) as (jc & Hjc & Heq).
    unfold cell in Heq. destruct (r !! jc) as [x|] eqn:Hx; [|done].
    exists x. split; [|done].
    exists jc, r. split; [by apply get_loc_first | done].
Qed.

Lemma where_true_elem i mask x :
  x ∈ where_true i mask <-> exists k, x = i + k /\ mask !! k = Some true.
Proof.
  revert i x. induction mask as [|b mask IH]; simpl; intros i x.
  - split; [by intros H%elem_of_nil | by intros (k & _ & H)].
  - split.
    + intros H. destruct b.
      * apply elem_of_cons in H as [Hx|H]; [exists 0; split; [lia|done]|].
        apply IH in H as (k & Hx & Hk). exists (S k). split; [lia|done].
      * apply IH in H as (k & Hx & Hk). exists (S k). split; [lia|done].
    + intros ([|k] & Hx & Hk); simpl in Hk.
      * assert (x = i) as -> by lia. inversion Hk; subst. by left.
      * assert (x ∈ where_true (S i) mask) as Hin.
        { apply IH. exists k. split; [lia|done]. }
        destruct b; [by right | done].
Qed.

Lemma where_true_sorted i mask : StronglySorted lt (where_true i mask).
Proof.
  revert i. induction mask as [|b mask IH]; simpl; intros i.
  - constructor.
  - destruct b; [|apply IH]. constructor; [apply IH|].
    rewrite List.Forall_forall. intros x Hx.
    apply list_elem_of_In, where_true_bound in Hx. lia.
Qed.

Lemma forallb_zip_cells r js row :
  forallb (fun p => value_eqb p.1 p.2) (zip (map (cell r) js) row) = true <->
  forall k jc v, js !! k = Some jc -> row !! k = Some v ->
    value_eqb (cell r jc) v = true.
Proof.
  revert row. induction js as [|j js IH]; intros [|v0 row]; simpl.
  - split; [by intros _ k jc v H | done].
  - split; [by intros _ k jc v H | done].
  - split; [by intros _ k jc v _ H | done].
  - rewrite andb_true_iff, IH. split.
    + intros (H0 & Hrest) [|k] jc v Hj Hv; simpl in *.
      * by inversion Hj; inversion Hv; subst.
      * by eapply Hrest.
    + intros H. split.
      * by apply (H 0).
      * intros k jc v Hj Hv. by apply (H (S k)).
Qed.

Lemma matching_index_total lookup qcols row :
  (forall c, c ∈ qcols -> c ∈ columns lookup) ->
  exists ind, matching_index lookup qcols row = inr ind.
Proof.
  intros Hcols. unfold matching_index, loc_columns.
  destruct (rmap_total (get_loc (columns lookup)) qcols) as (js & ->).
  { intros c Hc. by apply get_loc_elem, Hcols. }
  by eexists.
Qed.

(** The labels selected by the matching expression are, in increasing
    order, those of the matching rows. *)
Lemma matching_index_inr lookup qcols row ind :
  matching_index lookup qcols row = inr ind ->
  StronglySorted lt ind /\
  forall j, j ∈ ind <-> matches lookup qcols row j.
Proof.
  unfold matching_index, loc_columns. intros H.
  apply rbind_inr in H as (sub & Hsub & H). inversion H; subst ind.
  apply rbind_inr in Hsub as (js & Hjs & Hsub). inversion Hsub; subst sub.
  split; [apply where_true_sorted|].
  intros j. rewrite matches_rows, where_true_elem. unfold eq_all. split.
  - intros (k & -> & Hk). simpl in Hk.
    rewrite !list_lookup_fmap in Hk.
    destruct (data lookup !! k) as [r|] eqn:Hr; [|done]. simpl in Hk.
    injection Hk as Hall. exists r. split; [done|].
    intros p c v Hc Hv.
    destruct (rmap_lookup _ _ _ _ _ Hjs Hc) as (jc & Hjc & Hp).
    exists jc. split; [done|].
    exact (proj1 (forallb_zip_cells r js row) Hall p jc v Hp Hv).
  - intros (r & Hr & Hall). exists j. split; [done|].
    rewrite !list_lookup_fmap, Hr. simpl. f_equal.
    apply forallb_zip_cells. intros p jc v Hp Hv.
    destruct (lookup_lt_is_Some_2 qcols p) as (c & Hc).
    { rewrite <- (rmap_length _ _ _ Hjs). by eapply lookup_lt_Some. }
    destruct (Hall p c v Hc Hv) as (jc' & Hjc' & Heq).
    destruct (rmap_lookup _ _ _ _ _ Hjs Hc) as (jc'' & Hjc'' & Hp').
    congruence.
Qed.

Lemma sorted_singleton ind j :
  StronglySorted lt ind -> (forall x, x ∈ ind <-> x = j) -> ind = [j].
Proof.
  intros Hs H. destruct ind as [|a ind].
  - assert (j ∈ @nil nat) as Hin by (by apply H). by apply elem_of_nil in Hin.
  - assert (a = j) as -> by (apply H; by left).
    destruct ind as [|b ind]; [done|].
    assert (b = j) as -> by (apply H; right; by left).
    apply StronglySorted_inv in Hs as (_ & Hall).
    inversion Hall; subst. lia.
Qed.

(** A matching row exists only in a table that has the query columns. *)
Lemma matches_columns lookup qcols row j c :
  length row = length qcols -> matches lookup qcols row j ->
  c ∈ qcols -> c ∈ columns lookup.
Proof.
  intros Hlen (_ & H) Hc. apply list_elem_of_lookup in Hc as (k & Hk).
  destruct (lookup_lt_is_Some_2 row k) as (v & Hv).
  { rewrite Hlen. by eapply lookup_lt_Some. }
  destruct (H k c v Hk Hv) as (x & (jc & r & (Hjc & _) & _) & _).
  by eapply list_elem_of_lookup_2.
Qed.

Lemma only_match_index lookup qcols row j :
  length row = length qcols -> only_match lookup qcols row j ->
  matching_index lookup qcols row = inr [j].
Proof.
  intros Hlen (Hm & Huniq).
  destruct (matching_index_total lookup qcols row) as (ind & Hind).
  { intros c. by eapply matches_columns. }
  destruct (matching_index_inr _ _ _ _ Hind) as (Hs & Hchar).
  rewrite Hind. f_equal. apply sorted_singleton; [done|].
  intros x. rewrite Hchar. split; [apply Huniq | by intros ->].
Qed.

Lemma index_only_match lookup qcols row j :
  matching_index lookup qcols row = inr [j] -> only_match lookup qcols row j.
Proof.
  intros Hind. destruct (matching_index_inr _ _ _ _ Hind) as (_ & Hchar).
  split.
  - apply Hchar. by left.
  - intros j' Hj'. apply Hchar in Hj'. by apply list_elem_of_singleton in Hj'.
Qed.

Lemma unmatched_index lookup qcols row ind :
  unmatched lookup qcols row ->
  matching_index lookup qcols row = inr ind -> ind = [].
Proof.
  intros Hun Hind. destruct (matching_index_inr _ _ _ _ Hind) as (_ & Hchar).
  destruct ind as [|j ind]; [done|]. exfalso. apply (Hun j), Hchar. by left.
Qed.

Lemma index_unmatched lookup qcols row :
  matching_index lookup qcols row = inr [] -> unmatched lookup qcols row.
Proof.
  intros Hind j Hj. destruct (matching_index_inr _ _ _ _ Hind) as (_ & Hchar).
  apply Hchar in Hj. by apply elem_of_nil in Hj.
Qed.

Lemma wf_frame_row df row :
  wf_frame df -> row ∈ data df -> length row = length (columns df).
Proof.
  unfold wf_frame. rewrite Forall_forall. intros H Hrow. by apply H.
Qed.

Lemma loc_row_total df i cs :
  i < length (data df) -> (forall c, c ∈ cs -> c ∈ columns df) ->
  exists vals, loc_row df i cs = inr vals.
Proof.
  intros Hi Hcs. unfold loc_row.
  destruct (rmap_total (get_loc (columns df)) cs) as (js & ->).
  { intros c Hc. by apply get_loc_elem, Hcs. }
  simpl. destruct (lookup_lt_is_Some_2 (data df) i Hi) as (r & ->).
  by eexists.
Qed.

Lemma match_vals_of_single targets lookup impute_mode qcols row j w :
  matching_index lookup qcols row = inr [j] ->
  match_vals_of entropy targets lookup impute_mode qcols row w
    = (w, loc_row lookup j (map name targets)).
Proof.
  intros H. unfold match_vals_of, bind, lift. rewrite H.
  by destruct (loc_row lookup j (map name targets)).
Qed.

Lemma for_each_total {A B} (body : A -> M B) l w :
  (forall a, a ∈ l -> forall w1, exists w2 b, body a w1 = (w2, inr b)) ->
  exists w' bs, for_each body l w = (w', inr bs).
Proof.
  revert w. induction l as [|a l IH]; simpl; intros w H.
  - by eexists _, _.
  - unfold bind at 1. destruct (H a (list_elem_of_here _ _) w) as (w2 & b & ->).
    destruct (IH w2) as (w3 & bs & Hbs); [intros; apply H; by right|].
    unfold bind at 1. rewrite Hbs. by eexists _, _.
Qed.

Lemma elem_of_names (targets : list Target) t :
  t ∈ targets -> name t ∈ map name targets.
Proof. intros H. apply list_elem_of_fmap. eauto. Qed.

(** What a successful table lookup leaves in the query frame: for every
    row, the values collected for it by the loop body, one per target.
    Only on a frame without rows can the target names be repeated. *)
Lemma dataframe_lookup_inr targets lookup impute_mode w w' :
  _lookup_targets_from_dataframe entropy targets lookup impute_mode w
    = (w', inr tt) ->
  exists all_match_vals,
    (queries w' =
       write_columns (queries w) (map name targets) all_match_vals \/
     (data (queries w) = [] /\
      queries w' = append_missing (queries w) (map name targets))) /\
    length all_match_vals = length (data (queries w)) /\
    forall i row, data (queries w) !! i = Some row ->
      exists w1 w2 vals,
        match_vals_of entropy targets lookup impute_mode
          (columns (queries w)) row w1 = (w2, inr vals) /\
        all_match_vals !! i = Some vals.
Proof.
  unfold _lookup_targets_from_dataframe. intros H.
  apply bind_inr in H as (w1 & q & Hq & H). inversion Hq; subst.
  apply bind_inr in H as (w2 & vals & Hloop & H).
  pose proof (keeps_for_each _ (data (queries w1))
    (keeps_match_vals_of targets lookup impute_mode (columns (queries w1)))
    w1) as Hk.
  rewrite Hloop in Hk. simpl in Hk.
  apply for_each_inr in Hloop as (Hlen & Hall).
  exists vals. split; [|done].
  unfold loc_setitem in H. destruct (repeated (map name targets)).
  - destruct vals as [|v vals]; [|discriminate]. inversion H; subst. simpl.
    right. rewrite Hk. split; [|done].
    simpl in Hlen. symmetry in Hlen. by apply length_zero_iff_nil in Hlen.
  - inversion H; subst. simpl. left. by rewrite Hk.
Qed.

Lemma dataframe_lookup_inr_row targets lookup impute_mode w w' i row :
  _lookup_targets_from_dataframe entropy targets lookup impute_mode w
    = (w', inr tt) ->
  data (queries w) !! i = Some row ->
  exists all_match_vals w1 w2 vals,
    queries w' =
      write_columns (queries w) (map name targets) all_match_vals /\
    match_vals_of entropy targets lookup impute_mode
      (columns (queries w)) row w1 = (w2, inr vals) /\
    all_match_vals !! i = Some vals.
Proof.
  intros Hrun Hrow.
  apply dataframe_lookup_inr in Hrun as (arr & [Hq|(Hd & _)] & Hlen & Hall).
  - destruct (Hall i row Hrow) as (w1 & w2 & vals & Hbody & Hvals).
    by exists arr, w1, w2, vals.
  - by rewrite Hd in Hrow.
Qed.

(** The values written for a row whose matching expression selects the
    single label [j]. *)
Lemma exact_match_values_by_index targets lookup impute_mode w w' i row j t :
  wf_frame (queries w) ->
  _lookup_targets_from_dataframe entropy targets lookup impute_mode w
    = (w', inr tt) ->
  data (queries w) !! i = Some row ->
  matching_index lookup (columns (queries w)) row = inr [j] ->
  t ∈ targets ->
  exists v, loc_cell lookup j (name t) = inr v /\
            at_ (queries w') i (name t) = Some v.
Proof.
  intros Hwf Hrun Hrow Hm Ht.
  destruct (dataframe_lookup_inr_row _ _ _ _ _ _ _ Hrun Hrow)
    as (arr & w1 & w2 & vals & -> & Hbody & Hvals).
  pose proof (match_vals_of_length _ _ _ _ _ _ _ _ Hbody) as Hl.
  rewrite (match_vals_of_single _ _ _ _ _ j) in Hbody by done.
  inversion Hbody as [[Hw Hloc]].
  destruct (write_columns_at (queries w) (map name targets) arr i (name t)
              (fun v => loc_cell lookup j (name t) = inr v) vals)
    as (v & Hat & Hv).
  + done.
  + by eapply lookup_lt_Some.
  + done.
  + by rewrite Hl, length_map.
  + by apply elem_of_names.
  + intros v' Hin. by eapply loc_row_zip.
  + exists v. by rewrite Hat.
Qed.

(** With distinct target names the call returns as soon as the loop body
    returns for every row. *)
Lemma dataframe_lookup_returns targets lookup impute_mode w :
  NoDup (map name targets) ->
  (forall row, row ∈ data (queries w) ->
     forall w1, exists w2 vals,
       match_vals_of entropy targets lookup impute_mode
         (columns (queries w)) row w1 = (w2, inr vals)) ->
  exists w',
    _lookup_targets_from_dataframe entropy targets lookup impute_mode w
      = (w', inr tt).
Proof.
  intros Hnd Hbody.
  destruct (for_each_total
    (match_vals_of entropy targets lookup impute_mode (columns (queries w)))
    (data (queries w)) w Hbody) as (w2 & vals & Hloop).
  unfold _lookup_targets_from_dataframe, bind at 1, get_queries.
  unfold bind. rewrite Hloop. rewrite loc_setitem_distinct by done.
  by eexists.
Qed.

(** C1. For a query row with exactly one matching row in the reference
    table - the only table row whose cells equal, column by column, the
    cells of the query row - a table lookup that returns has written that
    table row's target values into the query row: for every target, the
    cell of the table row in the target's column is the cell of the query
    row in that column.  And the lookup does return when every query row
    has exactly one matching row, the table holds every target column and
    the targets have distinct names. *)
Theorem exact_match_copies_table_values targets lookup impute_mode w :
  wf_frame (queries w) -> wf_frame lookup ->
  (forall w' i row j t,
     _lookup_targets_from_dataframe entropy targets lookup impute_mode w
       = (w', inr tt) ->
     data (queries w) !! i = Some row ->
     only_match lookup (columns (queries w)) row j ->
     t ∈ targets ->
     exists v, has_cell lookup j (name t) v /\
               has_cell (queries w') i (name t) v) /\
  (NoDup (map name targets) ->
   (forall row, row ∈ data (queries w) ->
      exists j, only_match lookup (columns (queries w)) row j) ->
   (forall t, t ∈ targets -> name t ∈ columns lookup) ->
   exists w',
     _lookup_targets_from_dataframe entropy targets lookup impute_mode w
       = (w', inr tt)).
Proof.
  intros Hwf Hwfl. split.
  - intros w' i row j t Hrun Hrow Hone Ht.
    assert (matching_index lookup (columns (queries w)) row = inr [j]) as Hm.
    { apply only_match_index; [|done].
      apply wf_frame_row; [done | by eapply list_elem_of_lookup_2]. }
    destruct (exact_match_values_by_index _ _ _ _ _ _ _ _ _
                Hwf Hrun Hrow Hm Ht) as (v & Hv & Hat).
    exists v. split; [by apply loc_cell_has_cell | by apply at_has_cell].
  - intros Hnd Hone Hcols. apply dataframe_lookup_returns; [done|].
    intros row Hrow w1. destruct (Hone row Hrow) as (j & Hj).
    rewrite (match_vals_of_single _ _ _ _ _ j)
      by (apply only_match_index; [by apply wf_frame_row | done]).
    destruct (loc_row_total lookup j (map name targets)) as (vals & ->).
    + by destruct Hj as ((Hlt & _) & _).
    + intros c Hc. apply list_elem_of_fmap in Hc as (t & -> & Ht). auto.
    + by eexists _, _.
Qed.

(** *** Rows without a match *)

Lemma value_eqb_nan_r v : value_eqb v VNaN = false.
Proof. by destruct v. Qed.

Lemma value_eqb_nan_l v : value_eqb VNaN v = false.
Proof. done. Qed.

Lemma where_true_all_false i mask :
  Forall (fun b => b = false) mask -> where_true i mask = [].
Proof.
  intros H. revert i. induction H as [|b mask -> _ IH]; simpl; intros i.
  - done.
  - apply IH.
Qed.

Lemma row_with_nan_differs (r row : list value) :
  length r = length row -> VNaN ∈ row ->
  forallb (fun p => value_eqb p.1 p.2) (zip r row) = false.
Proof.
  intros Hlen Hnan.
  apply list_elem_of_lookup in Hnan as (p & Hp).
  destruct (lookup_lt_is_Some_2 r p) as (x & Hx).
  { rewrite Hlen. by eapply lookup_lt_Some. }
  destruct (forallb _ _) eqn:E; [|done].
  rewrite forallb_forall in E.
  specialize (E (x, VNaN)). simpl in E.
  rewrite value_eqb_nan_r in E. symmetry. apply E.
  apply list_elem_of_In, list_elem_of_lookup. exists p.
  rewrite lookup_zip_with, Hx. simpl. by rewrite Hp.
Qed.

Lemma matching_index_nan lookup qcols row :
  length row = length qcols -> VNaN ∈ row ->
  (forall c, c ∈ qcols -> c ∈ columns lookup) ->
  matching_index lookup qcols row = inr [].
Proof.
  intros Hlen Hnan Hcols. unfold matching_index, loc_columns.
  destruct (rmap_total (get_loc (columns lookup)) qcols) as (js & Hjs).
  { intros c Hc. by apply get_loc_elem, Hcols. }
  rewrite Hjs. simpl. unfold ok. f_equal.
  apply where_true_all_false. unfold eq_all.
  rewrite Forall_forall. intros b Hb.
  apply list_elem_of_fmap in Hb as (r' & -> & Hr').
  apply list_elem_of_fmap in Hr' as (r & -> & _).
  apply row_with_nan_differs; [|done].
  rewrite length_map, (rmap_length _ _ _ Hjs). done.
Qed.

Lemma match_vals_of_none targets lookup impute_mode qcols row w :
  matching_index lookup qcols row = inr [] ->
  match_vals_of entropy targets lookup impute_mode qcols row w =
  (if String.eqb impute_mode "ignore"
   then raise (AssertionError SearchSpaceNotReduced)
   else _impute_lookup entropy row lookup targets impute_mode) w.
Proof.
  intros H. unfold match_vals_of, bind, lift. rewrite H.
  destruct (String.eqb impute_mode "ignore"); simpl.
  - done.
  - by destruct (_impute_lookup _ _ _ _ _ w) as [w1 [e|a]].
Qed.

(** C9. Matching compares cells with an equality under which a missing
    value equals nothing, not even another missing value.  Hence a query
    row with a missing value in one of its columns matches no row of the
    reference table, and the loop body handles it as a row without a
    match. *)
Theorem missing_value_never_matches :
  (forall v, value_eqb VNaN v = false /\ value_eqb v VNaN = false) /\
  (forall lookup qcols row,
     length row = length qcols -> VNaN ∈ row ->
     (forall c, c ∈ qcols -> c ∈ columns lookup) ->
     matching_index lookup qcols row = inr []) /\
  (forall targets lookup impute_mode qcols row w,
     length row = length qcols -> VNaN ∈ row ->
     (forall c, c ∈ qcols -> c ∈ columns lookup) ->
     match_vals_of entropy targets lookup impute_mode qcols row w =
     (if String.eqb impute_mode "ignore"
      then raise (AssertionError SearchSpaceNotReduced)
      else _impute_lookup entropy row lookup targets impute_mode) w).
Proof.
  split; [|split].
  - intros v. split; [apply value_eqb_nan_l | apply value_eqb_nan_r].
  - apply matching_index_nan.
  - intros targets lookup impute_mode qcols row w Hlen Hnan Hcols.
    apply match_vals_of_none. by apply matching_index_nan.
Qed.

(** *** Failing calls *)

Lemma random_choice_elem l w i0 :
  exists i, i ∈ i0 :: l /\
    random_choice entropy (i0 :: l) w =
      (mkWorld (queries w) (warnings w) (S (draws w)), inr i).
Proof.
  eexists. split; [|reflexivity].
  apply list_elem_of_In, nth_In, Nat.mod_upper_bound. done.
Qed.

Lemma match_vals_of_matched targets lookup impute_mode qcols row i ind w :
  matching_index lookup qcols row = inr (i :: ind) ->
  (forall t, t ∈ targets -> name t ∈ columns lookup) ->
  exists w' vals,
    match_vals_of entropy targets lookup impute_mode qcols row w
      = (w', inr vals).
Proof.
  intros Hm Hcols.
  assert (Hnames : forall c, c ∈ map name targets -> c ∈ columns lookup).
  { intros c Hc. apply list_elem_of_fmap in Hc as (t & -> & Ht). auto. }
  destruct ind as [|i1 ind].
  - rewrite (match_vals_of_single _ _ _ _ _ i) by done.
    destruct (loc_row_total lookup i (map name targets)) as (vs & ->);
      [|done|by eexists _, _].
    eapply matching_index_bound; [exact Hm | by left].
  - unfold match_vals_of, bind at 1, lift. rewrite Hm.
    unfold bind at 1, warn. unfold bind.
    destruct (random_choice_elem (i1 :: ind)
                (mkWorld (queries w) (warnings w ++ [i :: i1 :: ind]) (draws w)) i)
      as (x & Hx & ->).
    destruct (loc_row_total lookup x (map name targets)) as (vs & ->);
      [|done|by eexists _, _].
    eapply matching_index_bound; [exact Hm | done].
Qed.

Lemma for_each_some_failure {A B} (body : A -> M B) l w :
  (exists a, a ∈ l /\ forall w1, exists w2 e, body a w1 = (w2, inl e)) ->
  exists w' e, for_each body l w = (w', inl e).
Proof.
  revert w. induction l as [|a l IH]; intros w (a0 & Hin & Hbad).
  - by apply elem_of_nil in Hin.
  - simpl. unfold bind at 1.
    destruct (body a w) as [w2 [e|b]] eqn:Hb; [by eexists _, _|].
    apply elem_of_cons in Hin as [->|Hin].
    { destruct (Hbad w) as (w3 & e & Hw3). congruence. }
    destruct (IH w2) as (w' & e & Hrun); [eauto|].
    unfold bind. rewrite Hrun. by eexists _, _.
Qed.

(** A query row without a match whose handling raises makes the whole
    call raise, with the query frame as the caller passed it. *)
Lemma unmatched_row_fails targets lookup impute_mode w :
  (exists row, row ∈ data (queries w) /\
     forall w1, exists w2 e,
       match_vals_of entropy targets lookup impute_mode
         (columns (queries w)) row w1 = (w2, inl e)) ->
  exists w' e,
    _lookup_targets_from_dataframe entropy targets lookup impute_mode w
      = (w', inl e) /\ queries w' = queries w.
Proof.
  intros Hbad.
  destruct (for_each_some_failure _ _ w Hbad) as (w' & e & Hrun).
  exists w', e. by apply dataframe_lookup_loop_failure.
Qed.

(** When the table has every target column, the rows before the first
    one without a match are all processed, and the exception is the one
    raised for that row. *)
Lemma first_unmatched_row_raises targets lookup impute_mode
    (E : list value -> exn) w :
  (forall row w1,
     matching_index lookup (columns (queries w)) row = inr [] ->
     match_vals_of entropy targets lookup impute_mode
       (columns (queries w)) row w1 = (w1, inl (E row))) ->
  (forall t, t ∈ targets -> name t ∈ columns lookup) ->
  (exists row, row ∈ data (queries w) /\
     matching_index lookup (columns (queries w)) row = inr []) ->
  exists w' row0,
    row0 ∈ data (queries w) /\
    matching_index lookup (columns (queries w)) row0 = inr [] /\
    _lookup_targets_from_dataframe entropy targets lookup impute_mode w
      = (w', inl (E row0)) /\
    queries w' = queries w.
Proof.
  intros HE Hcols (row & Hrow & Hnone).
  destruct (for_each_first_failure
    (match_vals_of entropy targets lookup impute_mode (columns (queries w)))
    E
    (fun r => matching_index lookup (columns (queries w)) r = inr [])
    (data (queries w)) w) as (w' & row0 & Hin & Hm0 & Hrun).
  - intros r _.
    destruct (matching_index_defined _ _ _ r _ Hnone) as ([|i ind] & Hr).
    + right. split; [done|]. intros w1. exists w1. by apply HE.
    + left. intros w1. by eapply match_vals_of_matched.
  - exists row. split; [done|]. intros w1. exists w1. by apply HE.
  - apply dataframe_lookup_loop_failure in Hrun as (Hcall & Hq).
    by exists w', row0.
Qed.

Lemma impute_lookup_else row lookup targets impute_mode :
  String.eqb impute_mode "mean" = false ->
  String.eqb impute_mode "worst" = false ->
  String.eqb impute_mode "best" = false ->
  String.eqb impute_mode "random" = false ->
  _impute_lookup entropy row lookup targets impute_mode
    = raise (IndexError row).
Proof. unfold _impute_lookup. by intros -> -> -> ->. Qed.

(** Modes other than ["mean"], ["worst"], ["best"], ["random"] and
    ["ignore"] all end in the final [else] of [_impute_lookup]. *)
Lemma fallthrough_mode_unmatched_row targets lookup impute_mode w :
  String.eqb impute_mode "ignore" = false ->
  String.eqb impute_mode "mean" = false ->
  String.eqb impute_mode "worst" = false ->
  String.eqb impute_mode "best" = false ->
  String.eqb impute_mode "random" = false ->
  (exists row, row ∈ data (queries w) /\
     matching_index lookup (columns (queries w)) row = inr []) ->
  (exists w' e,
     _lookup_targets_from_dataframe entropy targets lookup impute_mode w
       = (w', inl e) /\ queries w' = queries w) /\
  ((forall t, t ∈ targets -> name t ∈ columns lookup) ->
   exists w' row0,
     row0 ∈ data (queries w) /\
     matching_index lookup (columns (queries w)) row0 = inr [] /\
     _lookup_targets_from_dataframe entropy targets lookup impute_mode w
       = (w', inl (IndexError row0)) /\
     queries w' = queries w).
Proof.
  intros Hi Hm Hw Hb Hr Hrow.
  assert (HE : forall row w1,
    matching_index lookup (columns (queries w)) row = inr [] ->
    match_vals_of entropy targets lookup impute_mode
      (columns (queries w)) row w1 = (w1, inl (IndexError row))).
  { intros row w1 Hnone. rewrite match_vals_of_none by done.
    rewrite Hi. by rewrite impute_lookup_else. }
  split.
  - apply unmatched_row_fails. destruct Hrow as (row & Hin & Hnone).
    exists row. split; [done|]. intros w1. exists w1, (IndexError row).
    by apply HE.
  - intros Hcols. by apply first_unmatched_row_raises.
Qed.

(** Mode ["ignore"] on a row for which the matching expression selects
    nothing. *)
Lemma ignore_mode_empty_index targets lookup w :
  (exists row, row ∈ data (queries w) /\
     matching_index lookup (columns (queries w)) row = inr []) ->
  (exists w' e,
     _lookup_targets_from_dataframe entropy targets lookup "ignore" w
       = (w', inl e) /\ queries w' = queries w) /\
  ((forall t, t ∈ targets -> name t ∈ columns lookup) ->
   exists w',
     _lookup_targets_from_dataframe entropy targets lookup "ignore" w
       = (w', inl (AssertionError SearchSpaceNotReduced)) /\
     queries w' = queries w).
Proof.
  intros Hrow.
  assert (HE : forall row w1,
    matching_index lookup (columns (queries w)) row = inr [] ->
    match_vals_of entropy targets lookup "ignore"
      (columns (queries w)) row w1
      = (w1, inl (AssertionError SearchSpaceNotReduced))).
  { intros row w1 Hnone. by rewrite match_vals_of_none. }
  split.
  - apply unmatched_row_fails. destruct Hrow as (row & Hin & Hnone).
    exists row. split; [done|]. intros w1. eexists w1, _. by apply HE.
  - intros Hcols.
    destruct (first_unmatched_row_raises targets lookup "ignore"
                (fun _ => AssertionError SearchSpaceNotReduced) w HE Hcols Hrow)
      as (w' & row0 & _ & _ & Hrun & Hq).
    by exists w'.
Qed.

(** C4 (amended). With impute mode ["ignore"], a query row that no table
    row matches makes the call raise, with the query frame as it was:
    nothing is imputed and no row is skipped.  When the table holds every
    query column and every target column, the exception is the
    [AssertionError] of line 107. *)
Theorem ignore_mode_unmatched_row_raises_assertion targets lookup w :
  (exists row, row ∈ data (queries w) /\
     unmatched lookup (columns (queries w)) row) ->
  (exists w' e,
     _lookup_targets_from_dataframe entropy targets lookup "ignore" w
       = (w', inl e) /\ queries w' = queries w) /\
  ((forall c, c ∈ columns (queries w) -> c ∈ columns lookup) ->
   (forall t, t ∈ targets -> name t ∈ columns lookup) ->
   exists w',
     _lookup_targets_from_dataframe entropy targets lookup "ignore" w
       = (w', inl (AssertionError SearchSpaceNotReduced)) /\
     queries w' = queries w).
Proof.
  intros (row & Hrow & Hun). split.
  - apply unmatched_row_fails. exists row. split; [done|]. intros w1.
    unfold match_vals_of, bind, lift.
    destruct (matching_index lookup (columns (queries w)) row)
      as [e|ind] eqn:Hm; [by eexists _, _|].
    rewrite (unmatched_index _ _ _ _ Hun Hm). simpl. by eexists _, _.
  - intros Hq Hcols.
    destruct (matching_index_total lookup (columns (queries w)) row Hq)
      as (ind & Hm).
    pose proof (unmatched_index _ _ _ _ Hun Hm) as ->.
    apply ignore_mode_empty_index; [|done]. by exists row.
Qed.

(** C5 (amended). With impute mode ["error"], a query row that no table
    row matches makes the call raise, and the query frame is as it was: no
    target column has been written.  When the table holds every query
    column and every target column, the exception is the [IndexError] of
    line 194, quoting a query row that no table row matches. *)
Theorem error_mode_unmatched_row_raises_index_error targets lookup w :
  (exists row, row ∈ data (queries w) /\
     unmatched lookup (columns (queries w)) row) ->
  (exists w' e,
     _lookup_targets_from_dataframe entropy targets lookup "error" w
       = (w', inl e) /\ queries w' = queries w) /\
  ((forall c, c ∈ columns (queries w) -> c ∈ columns lookup) ->
   (forall t, t ∈ targets -> name t ∈ columns lookup) ->
   exists w' row0,
     row0 ∈ data (queries w) /\
     unmatched lookup (columns (queries w)) row0 /\
     _lookup_targets_from_dataframe entropy targets lookup "error" w
       = (w', inl (IndexError row0)) /\
     queries w' = queries w).
Proof.
  intros (row & Hrow & Hun). split.
  - apply unmatched_row_fails. exists row. split; [done|]. intros w1.
    unfold match_vals_of, bind, lift.
    destruct (matching_index lookup (columns (queries w)) row)
      as [e|ind] eqn:Hm; [by eexists _, _|].
    rewrite (unmatched_index _ _ _ _ Hun Hm). simpl. by eexists _, _.
  - intros Hq Hcols.
    destruct (matching_index_total lookup (columns (queries w)) row Hq)
      as (ind & Hm).
    pose proof (unmatched_index _ _ _ _ Hun Hm) as ->.
    destruct (fallthrough_mode_unmatched_row targets lookup "error" w)
      as (_ & Hraise); [done..| by exists row|].
    destruct (Hraise Hcols) as (w' & row0 & Hin & Hm0 & Hrun & Hkeep).
    exists w', row0. split; [done|]. split; [by apply index_unmatched|].
    by split.
Qed.

(** C6 (amended). An impute mode outside the six recognised strings is
    handled like ["error"]: a query row without a match makes the call
    raise and leaves the query frame as it was, and when the table holds
    every target column the exception is the [IndexError] of line 194. *)
Theorem unrecognized_mode_raises_index_error targets lookup impute_mode w :
  impute_mode ∉ recognized_modes ->
  (exists row, row ∈ data (queries w) /\
     matching_index lookup (columns (queries w)) row = inr []) ->
  (exists w' e,
     _lookup_targets_from_dataframe entropy targets lookup impute_mode w
       = (w', inl e) /\ queries w' = queries w) /\
  ((forall t, t ∈ targets -> name t ∈ columns lookup) ->
   exists w' row0,
     row0 ∈ data (queries w) /\
     matching_index lookup (columns (queries w)) row0 = inr [] /\
     _lookup_targets_from_dataframe entropy targets lookup impute_mode w
       = (w', inl (IndexError row0)) /\
     queries w' = queries w).
Proof.
  intros Hmode.
  apply fallthrough_mode_unmatched_row;
    apply String.eqb_neq; intros ->; apply Hmode;
    unfold recognized_modes; repeat constructor.
Qed.

(** *** The callable source *)

Lemma rmap_Forall {A B} (f : A -> result B) (P : B -> Prop) l bs :
  (forall a b, a ∈ l -> f a = inr b -> P b) ->
  rmap f l = inr bs -> Forall P bs.
Proof.
  revert bs. induction l as [|a l IH]; simpl; intros bs HP H.
  - inversion H; subst. constructor.
  - apply rbind_inr in H as (b & Hb & H).
    apply rbind_inr in H as (bs' & Hbs & H). inversion H; subst.
    constructor.
    + eapply HP; [by left | done].
    + apply IH; [|done]. intros a' b' Ha'. apply HP. by right.
Qed.

Lemma tuple_width_const (tuples : list (list value)) k :
  tuples <> [] -> Forall (fun t => length t = k) tuples ->
  tuple_width tuples = k.
Proof.
  intros Hne H. induction H as [|t tuples Ht Hall IH]; [done|].
  simpl. rewrite Ht. destruct tuples as [|t' tuples'].
  - simpl. lia.
  - fold (tuple_width (t' :: tuples')). rewrite IH by done. lia.
Qed.

(** C3 (amended). On a query frame with at least one row, a callable
    that returns [k >= 1] values for every row, [k] different from the
    number of targets, makes the call raise the [AssertionError] about the
    number of targets, and the program state, query frame included, is
    the one before the call. *)
Theorem callable_wrong_count_raises_assertion targets f k w :
  data (queries w) <> [] ->
  (forall row, row ∈ data (queries w) ->
     exists vs, f row = inr vs /\ length vs = k) ->
  1 <= k -> k <> length targets ->
  _lookup_targets_from_callable targets f w
    = (w, inl (AssertionError WrongTargetCount)).
Proof.
  intros Hne Hf Hk Hneq.
  unfold _lookup_targets_from_callable, bind at 1, get_queries.
  destruct (data (queries w)) as [|r rows] eqn:Hd; [done|].
  destruct (rmap_total f (r :: rows)) as (tuples & Htup).
  { intros row Hrow. destruct (Hf row Hrow) as (vs & -> & _). by eexists. }
  unfold bind, lift. rewrite Htup.
  assert (tuple_width tuples = k) as Hw.
  { apply tuple_width_const.
    - apply rmap_length in Htup. by destruct tuples.
    - eapply rmap_Forall; [|exact Htup]. intros row vs Hrow Hvs.
      destruct (Hf row Hrow) as (vs' & Hvs' & Hlen). congruence. }
  unfold measured_targets_of, split_columns. cbn -[Nat.eqb]. rewrite Hw.
  destruct k as [|k']; [lia|]. cbn -[Nat.eqb].
  by destruct (Nat.eqb_spec (S k') (length targets)).
Qed.

(** *** Imputation by the mean *)

Lemma series_sum_from acc s qs :
  numeric_values s = inr qs ->
  exists t,
    rfold (fun acc v => let? q := fillna0 v in ok (acc + q)%Q) s acc = inr t /\
    (t == acc + Qsum qs)%Q.
Proof.
  revert acc qs. induction s as [|v s IH]; simpl; intros acc qs H.
  - inversion H; subst. exists acc. split; [done|]. simpl. ring.
  - destruct v as [q| | |]; try discriminate.
    + apply rbind_inr in H as (qs' & Hqs' & H). inversion H; subst.
      destruct (IH (acc + q)%Q qs' Hqs') as (t & Ht & Heq).
      exists t. split; [done|]. rewrite Heq. simpl. ring.
    + destruct (IH (acc + 0)%Q qs H) as (t & Ht & Heq).
      exists t. split; [done|]. rewrite Heq. ring.
Qed.

Lemma notna_count_numeric s qs :
  numeric_values s = inr qs -> notna_count s = length qs.
Proof.
  unfold notna_count. revert qs.
  induction s as [|v s IH]; simpl; intros qs H.
  - by inversion H.
  - destruct v as [q| | |]; try discriminate; simpl.
    + apply rbind_inr in H as (qs' & Hqs' & H). inversion H; subst.
      simpl. f_equal. by apply IH.
    + by apply IH.
Qed.

(** pandas' mean of a numeric column is the arithmetic mean of its
    numbers. *)
Lemma series_mean_spec s qs :
  numeric_values s = inr qs ->
  exists v, series_mean s = inr v /\ is_mean_of qs v.
Proof.
  intros H. unfold series_mean, series_sum.
  destruct (series_sum_from 0%Q s qs H) as (t & -> & Heq). simpl.
  rewrite (notna_count_numeric s qs H).
  destruct qs as [|q qs']; simpl.
  - by eexists.
  - eexists. split; [done|]. exists (t / inject_Z (Z.of_nat (S (length qs'))))%Q.
    split; [done|]. unfold arithmetic_mean. rewrite Heq. simpl length.
    apply Qdiv_comp; [ring | reflexivity].
Qed.

Lemma rmap_elem_inv {A B} (f : A -> result B) l bs b :
  rmap f l = inr bs -> b ∈ bs -> exists a, a ∈ l /\ f a = inr b.
Proof.
  intros H Hb.
  assert (Forall (fun b => exists a, a ∈ l /\ f a = inr b) bs) as HF.
  { eapply rmap_Forall; [|exact H]. eauto. }
  rewrite Forall_forall in HF. by apply HF.
Qed.

(** Mode ["mean"] in terms of the column selection of the model. *)
Lemma mean_values_by_loc_column row lookup targets w :
  (forall t, t ∈ targets ->
     exists s qs, loc_column lookup (name t) = inr s /\
                  numeric_values s = inr qs) ->
  (exists vals,
     _impute_lookup entropy row lookup targets "mean" w = (w, inr vals) /\
     length vals = length targets /\
     forall k t s qs,
       targets !! k = Some t ->
       loc_column lookup (name t) = inr s ->
       numeric_values s = inr qs ->
       exists v, vals !! k = Some v /\ is_mean_of qs v) /\
  (forall row' targets',
     map name targets' = map name targets ->
     _impute_lookup entropy row' lookup targets' "mean" w =
     _impute_lookup entropy row lookup targets "mean" w).
Proof.
  intros Hcols. split.
  - destruct (rmap_total (loc_column lookup) (map name targets))
      as (cols & Hc).
    { intros c Hin. apply list_elem_of_fmap in Hin as (t & -> & Ht).
      destruct (Hcols t Ht) as (s & _ & -> & _). by eexists. }
    destruct (rmap_total series_mean cols) as (vals & Hv).
    { intros s Hs.
      destruct (rmap_elem_inv _ _ _ _ Hc Hs) as (c & Hin & Hcol).
      apply list_elem_of_fmap in Hin as (t & -> & Ht).
      destruct (Hcols t Ht) as (s' & qs & Hs' & Hqs).
      assert (s' = s) as -> by congruence.
      destruct (series_mean_spec s qs Hqs) as (v & -> & _). by eexists. }
    exists vals. split; [|split].
    + unfold _impute_lookup. simpl. unfold lift. rewrite Hc. simpl.
      by rewrite Hv.
    + rewrite (rmap_length _ _ _ Hv), (rmap_length _ _ _ Hc).
      by rewrite length_map.
    + intros k t s qs Hk Hs Hqs.
      assert (map name targets !! k = Some (name t)) as Hn.
      { by rewrite list_lookup_fmap, Hk. }
      destruct (rmap_lookup _ _ _ _ _ Hc Hn) as (s' & Hs' & Hck).
      assert (s' = s) as -> by congruence.
      destruct (rmap_lookup _ _ _ _ _ Hv Hck) as (v & Hmean & Hvk).
      destruct (series_mean_spec s qs Hqs) as (v' & Hmean' & Hspec).
      exists v. split; [done|]. congruence.
  - intros row' targets' Hnames. unfold _impute_lookup. simpl.
    by rewrite Hnames.
Qed.

(** C7. Mode ["mean"] imputes, for each target, the arithmetic mean of the
    numbers of the target's column over the whole table, the column being
    read cell by cell from the rows of the table and its missing entries
    left out; the result depends neither on the query row nor on the modes
    or bounds of the targets. *)
Theorem mean_imputation_is_column_mean row lookup targets w :
  (forall t, t ∈ targets ->
     exists s qs, is_column lookup (name t) s /\ numbers_of s qs) ->
  (exists vals,
     _impute_lookup entropy row lookup targets "mean" w = (w, inr vals) /\
     length vals = length targets /\
     forall k t s qs,
       targets !! k = Some t ->
       is_column lookup (name t) s ->
       numbers_of s qs ->
       exists v, vals !! k = Some v /\ is_mean_of qs v) /\
  (forall row' targets',
     map name targets' = map name targets ->
     _impute_lookup entropy row' lookup targets' "mean" w =
     _impute_lookup entropy row lookup targets "mean" w).
Proof.
  intros Hcols.
  destruct (mean_values_by_loc_column row lookup targets w)
    as ((vals & Hrun & Hlen & Hspec) & Hindep).
  { intros t Ht. destruct (Hcols t Ht) as (s & qs & Hs & Hqs).
    exists s, qs. split; [by apply is_column_loc | by apply numbers_of_numeric]. }
  split; [|done]. exists vals. split; [done|]. split; [done|].
  intros k t s qs Hk Hs Hqs.
  apply (Hspec k t s qs Hk); [by apply is_column_loc|].
  by apply numbers_of_numeric.
Qed.

(** *** Imputation by the best observation *)

Lemma Qmax_cases a b : Qmax a b = a \/ Qmax a b = b.
Proof.
  unfold Qmax, GenericMinMax.gmax. destruct (a ?= b)%Q; auto.
Qed.

Lemma Qmin_cases a b : Qmin a b = a \/ Qmin a b = b.
Proof.
  unfold Qmin, GenericMinMax.gmin. destruct (a ?= b)%Q; auto.
Qed.

Lemma fold_left_Qmax_spec qs q : is_max_of (q :: qs) (fold_left Qmax qs q).
Proof.
  revert q. induction qs as [|x qs IH]; intros q; simpl.
  - split; [by left|]. intros y Hy.
    apply list_elem_of_singleton in Hy as ->. apply Qle_refl.
  - destruct (IH (Qmax q x)) as (Hin & Hle). split.
    + apply elem_of_cons in Hin as [->|Hin].
      * destruct (Qmax_cases q x) as [->| ->]; [by left | right; by left].
      * right. by right.
    + intros y Hy. apply elem_of_cons in Hy as [->|Hy].
      * eapply Qle_trans; [apply Q.le_max_l|]. apply Hle. by left.
      * apply elem_of_cons in Hy as [->|Hy].
        -- eapply Qle_trans; [apply Q.le_max_r|]. apply Hle. by left.
        -- apply Hle. by right.
Qed.

Lemma fold_left_Qmin_spec qs q : is_min_of (q :: qs) (fold_left Qmin qs q).
Proof.
  revert q. induction qs as [|x qs IH]; intros q; simpl.
  - split; [by left|]. intros y Hy.
    apply list_elem_of_singleton in Hy as ->. apply Qle_refl.
  - destruct (IH (Qmin q x)) as (Hin & Hle). split.
    + apply elem_of_cons in Hin as [->|Hin].
      * destruct (Qmin_cases q x) as [->| ->]; [by left | right; by left].
      * right. by right.
    + intros y Hy. apply elem_of_cons in Hy as [->|Hy].
      * eapply Qle_trans; [|apply Q.le_min_l]. apply Hle. by left.
      * apply elem_of_cons in Hy as [->|Hy].
        -- eapply Qle_trans; [|apply Q.le_min_r]. apply Hle. by left.
        -- apply Hle. by right.
Qed.

Lemma loc_column_nonempty lookup c s :
  data lookup <> [] -> loc_column lookup c = inr s -> s <> [].
Proof.
  unfold loc_column. intros Hne H.
  apply rbind_inr in H as (j & _ & H). inversion H; subst.
  by destruct (data lookup).
Qed.

Lemma series_max_spec s qs :
  s <> [] -> numeric_values s = inr qs ->
  exists v, series_max s = inr (Scalar v) /\ is_best_of MAX qs v /\
            flatten0 (Scalar v) = inr v.
Proof.
  intros Hne H. unfold series_max. destruct s as [|x s']; [done|].
  rewrite H. simpl.
  destruct qs as [|q qs']; simpl; [by eexists|].
  eexists. split; [done|]. split; [|done].
  eexists. split; [done|]. apply fold_left_Qmax_spec.
Qed.

Lemma series_min_spec s qs :
  s <> [] -> numeric_values s = inr qs ->
  exists v, series_min s = inr (Scalar v) /\ is_best_of MIN qs v /\
            flatten0 (Scalar v) = inr v.
Proof.
  intros Hne H. unfold series_min. destruct s as [|x s']; [done|].
  rewrite H. simpl.
  destruct qs as [|q qs']; simpl; [by eexists|].
  eexists. split; [done|]. split; [|done].
  eexists. split; [done|]. apply fold_left_Qmin_spec.
Qed.

Lemma rfold_snoc {A} (f : list value -> A -> result (list value))
    (P : A -> value -> Prop) l acc :
  (forall a, a ∈ l ->
     exists v, P a v /\ forall acc', f acc' a = inr (acc' ++ [v])) ->
  exists vs, rfold f l acc = inr (acc ++ vs) /\ Forall2 P l vs.
Proof.
  revert acc. induction l as [|a l IH]; simpl; intros acc H.
  - exists []. by rewrite app_nil_r.
  - destruct (H a) as (v & HP & Hf); [by left|]. rewrite Hf. simpl.
    destruct (IH (acc ++ [v])) as (vs & -> & HF).
    { intros; apply H; by right. }
    exists (v :: vs). split; [by rewrite <- app_assoc|]. by constructor.
Qed.

Lemma rfold_some_failure {A B} (f : B -> A -> result B) l b :
  (exists a, a ∈ l /\ forall acc, exists e, f acc a = inl e) ->
  exists e, rfold f l b = inl e.
Proof.
  revert b. induction l as [|a l IH]; intros b (a0 & Hin & Hbad).
  - by apply elem_of_nil in Hin.
  - simpl. destruct (f b a) as [e|b'] eqn:Hf; simpl; [by eexists|].
    apply elem_of_cons in Hin as [->|Hin].
    + destruct (Hbad b) as (e & He). congruence.
    + apply IH. eauto.
Qed.

(** For targets of mode [MAX] and [MIN] and a table with rows, mode
    ["best"] imputes the largest, respectively smallest, number of the
    target's column. *)
Lemma best_imputation_max_min row lookup targets w :
  data lookup <> [] ->
  (forall t, t ∈ targets ->
     mode t <> MATCH /\
     exists s qs, loc_column lookup (name t) = inr s /\
                  numeric_values s = inr qs) ->
  exists vals,
    _impute_lookup entropy row lookup targets "best" w = (w, inr vals) /\
    forall k t s qs,
      targets !! k = Some t ->
      loc_column lookup (name t) = inr s ->
      numeric_values s = inr qs ->
      exists v, vals !! k = Some v /\ is_best_of (mode t) qs v.
Proof.
  intros Hrows Hcols.
  destruct (rfold_snoc (best_target lookup)
    (fun t v => forall s qs, loc_column lookup (name t) = inr s ->
                   numeric_values s = inr qs -> is_best_of (mode t) qs v)
    targets []) as (vals & Hrun & HF).
  { intros t Ht. destruct (Hcols t Ht) as (Hm & s & qs & Hs & Hqs).
    pose proof (loc_column_nonempty _ _ _ Hrows Hs) as Hne.
    unfold best_target. destruct (mode t) eqn:Em; [| |done].
    - destruct (series_max_spec s qs Hne Hqs) as (v & Hmax & Hbest & Hflat).
      exists v. split.
      + intros s' qs' Hs' Hqs'. congruence.
      + intros acc. rewrite Hs. cbn [rbind]. rewrite Hmax. cbn [rbind].
        by rewrite Hflat.
    - destruct (series_min_spec s qs Hne Hqs) as (v & Hmin & Hbest & Hflat).
      exists v. split.
      + intros s' qs' Hs' Hqs'. congruence.
      + intros acc. rewrite Hs. cbn [rbind]. rewrite Hmin. cbn [rbind].
        by rewrite Hflat. }
  exists vals. split.
  - unfold _impute_lookup. simpl. unfold lift. by rewrite Hrun.
  - intros k t s qs Hk Hs Hqs.
    destruct (Forall2_lookup_l _ _ _ _ _ HF Hk) as (v & Hv & HP).
    exists v. split; [done|]. by apply (HP s).
Qed.

(** A [MATCH] target makes mode ["best"] raise, whatever the table: the
    value closest to the centre is never returned. *)
Lemma best_imputation_match_raises row lookup targets w :
  (exists t, t ∈ targets /\ mode t = MATCH) ->
  exists e, _impute_lookup entropy row lookup targets "best" w = (w, inl e).
Proof.
  intros (t & Ht & Hm).
  destruct (rfold_some_failure (best_target lookup) targets []) as (e & He).
  { exists t. split; [done|]. intros acc. unfold best_target. rewrite Hm.
    cbn [rbind ok]. apply (match_branch_raises lookup idxmin acc t). }
  exists e. unfold _impute_lookup. simpl. unfold lift. by rewrite He.
Qed.

(** *** Values written by a successful call *)

Lemma complete_cell lookup targets t j r :
  complete_targets lookup targets -> t ∈ targets ->
  get_loc (columns lookup) (name t) = inr j -> r ∈ data lookup ->
  cell r j <> VNaN.
Proof.
  intros (_ & Hc) Ht Hj Hr Hnan.
  apply (Hc t (map (fun r => cell r j) (data lookup)) Ht).
  - unfold loc_column. by rewrite Hj.
  - rewrite <- Hnan. apply list_elem_of_fmap. eauto.
Qed.

Lemma loc_cell_not_nan lookup targets t i c :
  complete_targets lookup targets -> t ∈ targets ->
  loc_cell lookup i (name t) = inr c -> c <> VNaN.
Proof.
  unfold loc_cell. intros Hc Ht H.
  apply rbind_inr in H as (j & Hj & H).
  destruct (data lookup !! i) as [r|] eqn:Hr; [|discriminate].
  inversion H; subst. eapply complete_cell; eauto.
  by eapply list_elem_of_lookup_2.
Qed.

Lemma loc_row_not_nan lookup targets i vals :
  complete_targets lookup targets ->
  loc_row lookup i (map name targets) = inr vals ->
  Forall (fun v => v <> VNaN) vals.
Proof.
  intros Hc H. rewrite Forall_forall. intros v Hv.
  apply list_elem_of_lookup in Hv as (k & Hk).
  assert (k < length (map name targets)) as Hlt.
  { rewrite <- (loc_row_length _ _ _ _ H). by eapply lookup_lt_Some. }
  destruct (lookup_lt_is_Some_2 _ _ Hlt) as (c & Hck).
  assert ((c, v) ∈ zip (map name targets) vals) as Hin.
  { apply list_elem_of_lookup. exists k.
    rewrite lookup_zip_with, Hck. simpl. by rewrite Hk. }
  apply list_elem_of_lookup_2 in Hck.
  apply list_elem_of_fmap in Hck as (t & -> & Ht).
  eapply loc_cell_not_nan; [done..|]. by eapply loc_row_zip.
Qed.

Lemma series_mean_not_nan s v :
  series_mean s = inr v -> VNaN ∉ s -> s <> [] -> v <> VNaN.
Proof.
  unfold series_mean. intros H Hnan Hne.
  apply rbind_inr in H as (t & _ & H).
  destruct s as [|x s']; [done|].
  assert (notna_count (x :: s') <> 0) as Hcount.
  { unfold notna_count. simpl. destruct x; simpl; try done.
    exfalso. apply Hnan. by left. }
  destruct (Nat.eqb_spec (notna_count (x :: s')) 0); [done|].
  by inversion H.
Qed.

Lemma series_max_not_nan s m v :
  series_max s = inr m -> flatten0 m = inr v -> VNaN ∉ s -> v <> VNaN.
Proof.
  unfold series_max. intros H Hflat Hnan.
  destruct s as [|x s']; [by inversion H; subst|].
  apply rbind_inr in H as (qs & Hqs & H).
  destruct x; simpl in Hqs; try discriminate.
  - apply rbind_inr in Hqs as (qs' & _ & Hqs). inversion Hqs; subst.
    inversion H; subst. by inversion Hflat.
  - exfalso. apply Hnan. by left.
Qed.

Lemma series_min_not_nan s m v :
  series_min s = inr m -> flatten0 m = inr v -> VNaN ∉ s -> v <> VNaN.
Proof.
  unfold series_min. intros H Hflat Hnan.
  destruct s as [|x s']; [by inversion H; subst|].
  apply rbind_inr in H as (qs & Hqs & H).
  destruct x; simpl in Hqs; try discriminate.
  - apply rbind_inr in Hqs as (qs' & _ & Hqs). inversion Hqs; subst.
    inversion H; subst. by inversion Hflat.
  - exfalso. apply Hnan. by left.
Qed.

Lemma flatten0_scalar c v : flatten0 (Scalar c) = inr v -> v = c.
Proof. destruct c; simpl; intros H; by inversion H. Qed.

Lemma rfold_Forall {A} (f : list value -> A -> result (list value))
    (P : value -> Prop) l acc acc' :
  (forall a b b', a ∈ l -> f b a = inr b' -> Forall P b -> Forall P b') ->
  Forall P acc -> rfold f l acc = inr acc' -> Forall P acc'.
Proof.
  revert acc. induction l as [|a l IH]; simpl; intros acc Hf Hacc H.
  - by inversion H; subst.
  - apply rbind_inr in H as (b & Hb & H).
    apply (IH b); [|by eapply Hf; [by left|exact Hb|]|done].
    intros a' b0 b0' Ha'. apply Hf. by right.
Qed.

Lemma best_target_not_nan lookup targets t acc acc' :
  complete_targets lookup targets -> t ∈ targets ->
  best_target lookup acc t = inr acc' ->
  Forall (fun v => v <> VNaN) acc -> Forall (fun v => v <> VNaN) acc'.
Proof.
  intros Hc Ht H Hacc. unfold best_target in H.
  destruct (mode t) eqn:Em.
  - apply rbind_inr in H as (acc1 & H1 & H). inversion H; subst.
    apply rbind_inr in H1 as (s & Hs & H1).
    apply rbind_inr in H1 as (m & Hm & H1).
    apply rbind_inr in H1 as (v & Hv & H1). inversion H1; subst.
    apply Forall_app. split; [done|]. constructor; [|done].
    eapply series_max_not_nan; [exact Hm | exact Hv | by eapply (proj2 Hc)].
  - apply rbind_inr in H as (acc1 & H1 & H). inversion H; subst.
    apply rbind_inr in H1 as (s & Hs & H1).
    apply rbind_inr in H1 as (m & Hm & H1).
    apply rbind_inr in H1 as (v & Hv & H1). inversion H1; subst.
    apply Forall_app. split; [done|]. constructor; [|done].
    eapply series_min_not_nan; [exact Hm | exact Hv | by eapply (proj2 Hc)].
  - apply rbind_inr in H as (acc1 & H1 & H).
    destruct (match_branch_raises lookup idxmin acc1 t) as (e & He).
    rewrite He in H. discriminate.
Qed.

Lemma worst_target_not_nan lookup targets t acc acc' :
  complete_targets lookup targets -> t ∈ targets ->
  worst_target lookup acc t = inr acc' ->
  Forall (fun v => v <> VNaN) acc -> Forall (fun v => v <> VNaN) acc'.
Proof.
  intros Hc Ht H Hacc. unfold worst_target in H.
  destruct (mode t) eqn:Em.
  - apply rbind_inr in H as (acc1 & H1 & H). inversion H; subst.
    apply rbind_inr in H1 as (s & Hs & H1).
    apply rbind_inr in H1 as (m & Hm & H1).
    apply rbind_inr in H1 as (v & Hv & H1). inversion H1; subst.
    apply Forall_app. split; [done|]. constructor; [|done].
    eapply series_min_not_nan; [exact Hm | exact Hv | by eapply (proj2 Hc)].
  - apply rbind_inr in H as (acc1 & H1 & H). inversion H; subst.
    apply rbind_inr in H1 as (s & Hs & H1).
    apply rbind_inr in H1 as (m & Hm & H1).
    apply rbind_inr in H1 as (v & Hv & H1). inversion H1; subst.
    apply Forall_app. split; [done|]. constructor; [|done].
    eapply series_max_not_nan; [exact Hm | exact Hv | by eapply (proj2 Hc)].
  - apply rbind_inr in H as (acc1 & H1 & H).
    destruct (match_branch_raises lookup idxmax acc1 t) as (e & He).
    rewrite He in H. discriminate.
Qed.

Lemma random_target_not_nan lookup targets t i acc acc' :
  complete_targets lookup targets -> t ∈ targets ->
  random_target lookup i acc t = inr acc' ->
  Forall (fun v => v <> VNaN) acc -> Forall (fun v => v <> VNaN) acc'.
Proof.
  intros Hc Ht H Hacc. unfold random_target in H.
  apply rbind_inr in H as (c & Hcell & H).
  apply rbind_inr in H as (v & Hv & H). inversion H; subst.
  apply flatten0_scalar in Hv as ->.
  apply Forall_app. split; [done|]. constructor; [|done].
  by eapply loc_cell_not_nan.
Qed.

Lemma impute_lookup_not_nan row lookup targets impute_mode w w' vals :
  complete_targets lookup targets ->
  _impute_lookup entropy row lookup targets impute_mode w = (w', inr vals) ->
  Forall (fun v => v <> VNaN) vals.
Proof.
  intros Hc. unfold _impute_lookup. intros H.
  destruct (String.eqb impute_mode "mean").
  { inversion H as [[Hw Hr]].
    apply rbind_inr in Hr as (cols & Hcols & Hr).
    eapply rmap_Forall; [|exact Hr]. intros s v Hs Hmean.
    destruct (rmap_elem_inv _ _ _ _ Hcols Hs) as (c & Hin & Hcol).
    apply list_elem_of_fmap in Hin as (t & -> & Ht).
    eapply series_mean_not_nan; [exact Hmean | by eapply (proj2 Hc) |].
    eapply loc_column_nonempty; [apply Hc | done]. }
  destruct (String.eqb impute_mode "worst").
  { inversion H as [[Hw Hr]].
    eapply rfold_Forall; [| |exact Hr]; [|constructor].
    intros t b b' Ht Hstep. by eapply worst_target_not_nan. }
  destruct (String.eqb impute_mode "best").
  { inversion H as [[Hw Hr]].
    eapply rfold_Forall; [| |exact Hr]; [|constructor].
    intros t b b' Ht Hstep. by eapply best_target_not_nan. }
  destruct (String.eqb impute_mode "random"); [|discriminate].
  apply bind_inr in H as (w1 & i & _ & H). inversion H as [[Hw Hr]].
  eapply rfold_Forall; [| |exact Hr]; [|constructor].
  intros t b b' Ht Hstep. by eapply random_target_not_nan.
Qed.

Lemma match_vals_of_not_nan targets lookup impute_mode qcols row w w' vals :
  complete_targets lookup targets ->
  match_vals_of entropy targets lookup impute_mode qcols row w
    = (w', inr vals) ->
  Forall (fun v => v <> VNaN) vals.
Proof.
  intros Hc. unfold match_vals_of. intros H.
  apply bind_inr in H as (w1 & ind & _ & H).
  destruct ind as [|i0 [|i1 ind]].
  - destruct (String.eqb impute_mode "ignore"); [discriminate|].
    by eapply impute_lookup_not_nan.
  - inversion H as [[Hw Hr]]. by eapply loc_row_not_nan.
  - apply bind_inr in H as (w2 & [] & _ & H).
    apply bind_inr in H as (w3 & i & _ & H).
    inversion H as [[Hw Hr]]. by eapply loc_row_not_nan.
Qed.

Lemma write_columns_length df keys arr :
  length arr = length (data df) ->
  length (data (write_columns df keys arr)) = length (data df).
Proof.
  intros H. unfold write_columns. simpl.
  rewrite length_zip_with, ensure_columns_length. lia.
Qed.

(** *** All or nothing *)

Lemma zip_nodup_lookup {A} (keys : list string) (vals : list A) k c v v' :
  NoDup keys -> keys !! k = Some c -> vals !! k = Some v ->
  (c, v') ∈ zip keys vals -> v' = v.
Proof.
  intros Hnd Hk Hv Hin. apply list_elem_of_lookup in Hin as (k' & Hk').
  rewrite lookup_zip_with in Hk'.
  destruct (keys !! k') as [c'|] eqn:Ec; [|done]. simpl in Hk'.
  destruct (vals !! k') as [v''|] eqn:Ev; [|done]. inversion Hk'; subst.
  assert (k' = k) as -> by (by eapply NoDup_lookup).
  congruence.
Qed.

(** The values the loop body collects for a row are those of a matching
    table row, or, for a row without a match, the imputed ones. *)
Lemma match_vals_of_inr_cases targets lookup impute_mode qcols row w1 w2 vals :
  match_vals_of entropy targets lookup impute_mode qcols row w1
    = (w2, inr vals) ->
  (exists j, matches lookup qcols row j /\
             loc_row lookup j (map name targets) = inr vals) \/
  (unmatched lookup qcols row /\
   _impute_lookup entropy row lookup targets impute_mode w1 = (w2, inr vals)).
Proof.
  intros H. unfold match_vals_of in H.
  apply bind_inr in H as (w3 & ind & Hind & H).
  inversion Hind as [[Hw3 Hmatch]]. subst w3.
  destruct (matching_index_inr _ _ _ _ Hmatch) as (_ & Hchar).
  destruct ind as [|i0 [|i1 ind]].
  - right. split; [by apply index_unmatched|].
    by destruct (String.eqb impute_mode "ignore").
  - left. inversion H as [[Hw' Hloc]]. exists i0.
    split; [apply Hchar; by left | done].
  - left. apply bind_inr in H as (w4 & [] & Hwarn & H).
    apply bind_inr in H as (w5 & j & Hchoice & H).
    destruct (random_choice_elem (i1 :: ind) w4 i0)
      as (j' & Hj' & Hchoice').
    rewrite Hchoice' in Hchoice. inversion Hchoice; subst.
    inversion H as [[Hw' Hloc]]. exists j. split; [by apply Hchar | done].
Qed.

Lemma no_missing_complete lookup targets :
  wf_frame lookup -> no_missing_targets lookup targets ->
  complete_targets lookup targets.
Proof.
  intros Hwf (Hne & H). split; [done|]. intros t s Ht Hs Hnan.
  apply (loc_is_column _ _ _ Hwf) in Hs as (j & Hj & HF).
  apply list_elem_of_lookup in Hnan as (i & Hi).
  destruct (Forall2_lookup_r _ _ _ _ _ HF Hi) as (r & Hr & Hv).
  apply (H t i VNaN Ht); [|done]. by exists j, r.
Qed.

(** C2 (amended). A lookup in a reference table, for targets of distinct
    names, is all or nothing.  When the call raises, the query frame is as
    it was: no target column has been written.  When it returns, every
    query row holds a cell for every target: the cell of a table row that
    matches the query row or, for a query row that no table row matches,
    the value imputed for that target; and this cell is not missing
    whenever the table has at least one row and no missing value in its
    target columns. *)
Theorem table_lookup_all_or_nothing targets lookup impute_mode w w' r :
  NoDup (map name targets) ->
  wf_frame (queries w) -> wf_frame lookup ->
  look_up_targets entropy add_fake_results targets (LookupFrame lookup)
    impute_mode w = (w', r) ->
  match r with
  | inl _ => queries w' = queries w
  | inr _ =>
      length (data (queries w')) = length (data (queries w)) /\
      forall i row k t,
        data (queries w) !! i = Some row -> targets !! k = Some t ->
        exists v,
          has_cell (queries w') i (name t) v /\
          ((exists j, matches lookup (columns (queries w)) row j /\
                      has_cell lookup j (name t) v) \/
           (unmatched lookup (columns (queries w)) row /\
            exists w1 w2 vals,
              _impute_lookup entropy row lookup targets impute_mode w1
                = (w2, inr vals) /\
              vals !! k = Some v)) /\
          (no_missing_targets lookup targets -> v <> VNaN)
  end.
Proof.
  simpl. intros Hnd Hwf Hwfl Hrun. destruct r as [e|[]].
  { by eapply dataframe_lookup_failure_keeps_queries. }
  split.
  { apply dataframe_lookup_inr in Hrun as (arr & [->|(Hd & ->)] & Hlen & _).
    - by apply write_columns_length.
    - simpl. by rewrite Hd. }
  intros i row k t Hrow Hk.
  destruct (dataframe_lookup_inr_row _ _ _ _ _ _ _ Hrun Hrow)
    as (arr & w1 & w2 & vals & -> & Hbody & Hvals).
  pose proof (match_vals_of_length _ _ _ _ _ _ _ _ Hbody) as Hl.
  assert (map name targets !! k = Some (name t)) as Hn.
  { by rewrite list_lookup_fmap, Hk. }
  destruct (lookup_lt_is_Some_2 vals k) as (v & Hv).
  { rewrite Hl. by eapply lookup_lt_Some. }
  assert ((name t, v) ∈ zip (map name targets) vals) as Hzip.
  { apply list_elem_of_lookup. exists k.
    by rewrite lookup_zip_with, Hn, Hv. }
  exists v. split; [|split].
  - apply at_has_cell.
    destruct (write_columns_at (queries w) (map name targets) arr i (name t)
                (fun v' => v' = v) vals) as (v' & Hat & ->).
    + done.
    + by eapply lookup_lt_Some.
    + done.
    + by rewrite Hl, length_map.
    + by eapply list_elem_of_lookup_2.
    + intros v' Hin. by eapply zip_nodup_lookup.
    + done.
  - destruct (match_vals_of_inr_cases _ _ _ _ _ _ _ _ Hbody)
      as [(j & Hj & Hloc)|(Hun & Himp)].
    + left. exists j. split; [done|].
      apply loc_cell_has_cell; [done|]. by eapply loc_row_zip.
    + right. split; [done|]. by exists w1, w2, vals.
  - intros Hcomplete.
    pose proof (match_vals_of_not_nan _ _ _ _ _ _ _ _
                  (no_missing_complete _ _ Hwfl Hcomplete) Hbody) as Hall.
    rewrite Forall_forall in Hall. apply Hall.
    by eapply list_elem_of_lookup_2.
Qed.

(** C10. A lookup source that is neither [None], nor a callable, nor a
    data frame takes none of the three branches: the call returns
    normally and the program state, query frame included, is untouched. *)
Theorem other_lookup_source_is_noop targets lookup impute_mode w :
  lookup <> LookupNone ->
  (forall f, lookup <> LookupCallable f) ->
  (forall df, lookup <> LookupFrame df) ->
  look_up_targets entropy add_fake_results targets lookup impute_mode w
    = (w, inr tt).
Proof.
  intros Hnone Hcallable Hframe.
  destruct lookup as [|f|df|].
  - by destruct Hnone.
  - by destruct (Hcallable f).
  - by destruct (Hframe df).
  - reflexivity.
Qed.

End LookupProperties.

(** ** The properties on the example data *)

Lemma example_columns_present c :
  c ∈ ["T"; "flow"] -> c ∈ columns example_table.
Proof.
  intros Hc. simpl.
  apply elem_of_cons in Hc as [->|Hc]; [by left|].
  apply elem_of_cons in Hc as [->|Hc]; [right; by left|].
  by apply elem_of_nil in Hc.
Defined.

Lemma example_target_present md t :
  t ∈ [yield_target md] -> name t ∈ columns example_table.
Proof.
  intros Ht. apply list_elem_of_singleton in Ht. subst t. simpl.
  right. right. by left.
Defined.


Lemma unmatched_query_has_no_match :
  exists row, row ∈ data (queries (start [matched_query; unmatched_query])) /\
    matching_index example_table
      (columns (queries (start [matched_query; unmatched_query]))) row = inr [].
Proof. exists unmatched_query. split; [right; by left | reflexivity]. Defined.

Lemma example_table_wf : wf_frame example_table.
Proof. repeat constructor. Defined.

Lemma unmatched_query_is_unmatched :
  exists row, row ∈ data (queries (start [matched_query; unmatched_query])) /\
    unmatched example_table
      (columns (queries (start [matched_query; unmatched_query]))) row.
Proof.
  exists unmatched_query. split; [right; by left|].
  by apply index_unmatched.
Defined.

Lemma matched_query_has_one_match :
  only_match example_table ["T"; "flow"] matched_query 0.
Proof. by apply index_only_match. Defined.

Lemma exact_match_copies_table_values_witness :
  (exists v, has_cell example_table 0 "Yield" v /\
     has_cell (queries (_lookup_targets_from_dataframe zero_entropy
                          [yield_target MAX] example_table "error"
                          (start [matched_query])).1) 0 "Yield" v) /\
  (exists w', _lookup_targets_from_dataframe zero_entropy
                [yield_target MAX] example_table "error"
                (start [matched_query]) = (w', inr tt)).
Proof.
  destruct (exact_match_copies_table_values zero_entropy [yield_target MAX]
              example_table "error" (start [matched_query]))
    as (Hcopy & Hreturns).
  { repeat constructor. }
  { apply example_table_wf. }
  split.
  - apply (Hcopy _ 0 matched_query 0 (yield_target MAX)).
    + reflexivity.
    + reflexivity.
    + apply matched_query_has_one_match.
    + by left.
  - apply Hreturns.
    + apply NoDup_singleton.
    + intros row Hrow. apply list_elem_of_singleton in Hrow. subst row.
      exists 0. apply matched_query_has_one_match.
    + apply example_target_present.
Defined.

Lemma table_lookup_all_or_nothing_witness :
  length (data (queries (look_up_targets zero_entropy no_fake_results
      [yield_target MAX] (LookupFrame example_table) "best"
      (start [matched_query; unmatched_query])).1)) = 2 /\
  forall i row k t,
    data (queries (start [matched_query; unmatched_query])) !! i = Some row ->
    [yield_target MAX] !! k = Some t ->
    exists v,
      has_cell (queries (look_up_targets zero_entropy no_fake_results
            [yield_target MAX] (LookupFrame example_table) "best"
            (start [matched_query; unmatched_query])).1) i (name t) v /\
      ((exists j,
          matches example_table
            (columns (queries (start [matched_query; unmatched_query])))
            row j /\
          has_cell example_table j (name t) v) \/
       (unmatched example_table
          (columns (queries (start [matched_query; unmatched_query]))) row /\
        exists w1 w2 vals,
          _impute_lookup zero_entropy row example_table [yield_target MAX]
            "best" w1 = (w2, inr vals) /\
          vals !! k = Some v)) /\
      (no_missing_targets example_table [yield_target MAX] -> v <> VNaN).
Proof.
  apply (table_lookup_all_or_nothing zero_entropy no_fake_results
           [yield_target MAX] example_table "best"
           (start [matched_query; unmatched_query]) _ (inr tt)).
  - apply NoDup_singleton.
  - repeat constructor.
  - apply example_table_wf.
  - reflexivity.
Defined.

Lemma ignore_mode_unmatched_row_raises_assertion_witness :
  exists w',
    _lookup_targets_from_dataframe zero_entropy [yield_target MAX]
      example_table "ignore" (start [matched_query; unmatched_query])
    = (w', inl (AssertionError SearchSpaceNotReduced)) /\
    queries w' = queries (start [matched_query; unmatched_query]).
Proof.
  apply (proj2 (ignore_mode_unmatched_row_raises_assertion zero_entropy
                  [yield_target MAX] example_table
                  (start [matched_query; unmatched_query])
                  unmatched_query_is_unmatched)).
  - apply example_columns_present.
  - apply example_target_present.
Defined.

Lemma error_mode_unmatched_row_raises_index_error_witness :
  exists w' row0,
    row0 ∈ data (queries (start [matched_query; unmatched_query])) /\
    unmatched example_table
      (columns (queries (start [matched_query; unmatched_query]))) row0 /\
    _lookup_targets_from_dataframe zero_entropy [yield_target MAX]
      example_table "error" (start [matched_query; unmatched_query])
    = (w', inl (IndexError row0)) /\
    queries w' = queries (start [matched_query; unmatched_query]).
Proof.
  apply (proj2 (error_mode_unmatched_row_raises_index_error zero_entropy
                  [yield_target MAX] example_table
                  (start [matched_query; unmatched_query])
                  unmatched_query_is_unmatched)).
  - apply example_columns_present.
  - apply example_target_present.
Defined.

Lemma example_yield_is_column md t :
  t ∈ [yield_target md] ->
  exists s qs, is_column example_table (name t) s /\ numbers_of s qs.
Proof.
  intros Ht. apply list_elem_of_singleton in Ht. subst t.
  exists [num 50; num 90], [inject_Z 50; inject_Z 90]. split.
  - apply loc_is_column; [apply example_table_wf | reflexivity].
  - repeat constructor.
Defined.

Lemma mean_imputation_is_column_mean_witness :
  exists vals,
    _impute_lookup zero_entropy unmatched_query example_table
      [yield_target MAX] "mean" (start [unmatched_query])
    = (start [unmatched_query], inr vals) /\
    length vals = 1 /\
    forall k t s qs,
      [yield_target MAX] !! k = Some t ->
      is_column example_table (name t) s ->
      numbers_of s qs ->
      exists v, vals !! k = Some v /\ is_mean_of qs v.
Proof.
  apply (proj1 (mean_imputation_is_column_mean zero_entropy unmatched_query
                  example_table [yield_target MAX] (start [unmatched_query])
                  (example_yield_is_column MAX))).
Defined.

(** Two targets of the same name: the assignment of line 121 adds the
    columns and then raises [ValueError], so that the query frame is no
    longer the one the caller passed. *)
Lemma repeated_target_name_raises_after_adding_columns :
  (_lookup_targets_from_dataframe zero_entropy
     [yield_target MAX; yield_target MIN] example_table "error"
     (start [matched_query])).2 = inl ValueError /\
  queries (_lookup_targets_from_dataframe zero_entropy
             [yield_target MAX; yield_target MIN] example_table "error"
             (start [matched_query])).1
  <> queries (start [matched_query]).
Proof. split; [reflexivity | discriminate]. Qed.

(** A call that returns can leave a missing value behind: the only table
    row matching the query has no measured [Yield]. *)
Lemma nonmissing_after_success_counterexample :
  (look_up_targets zero_entropy no_fake_results [yield_target MAX]
     (LookupFrame gapped_table) "error" (start [matched_query])).2 = inr tt /\
  at_ (queries (look_up_targets zero_entropy no_fake_results [yield_target MAX]
                  (LookupFrame gapped_table) "error" (start [matched_query])).1)
      0 "Yield" = Some VNaN.
Proof. split; reflexivity. Qed.


Lemma callable_target_count_counterexample :
  _lookup_targets_from_callable [yield_target MAX] two_values
    (start [matched_query])
  = (start [matched_query], inl (AssertionError WrongTargetCount)) /\
  (_lookup_targets_from_callable [yield_target MAX] two_values
     (start [matched_query])).2 <> inl ConfigurationError.
Proof. split; [reflexivity | discriminate]. Qed.

(** A callable returning the empty tuple passes the count check against a
    single target, and the target column receives the tuples. *)
Lemma callable_empty_tuple_is_accepted :
  (_lookup_targets_from_callable [yield_target MAX] no_values
     (start [matched_query])).2 = inr tt /\
  at_ (queries (_lookup_targets_from_callable [yield_target MAX] no_values
                  (start [matched_query])).1) 0 "Yield" = Some VTuple0.
Proof. split; reflexivity. Qed.

Lemma callable_wrong_count_raises_assertion_witness :
  _lookup_targets_from_callable [yield_target MAX] two_values
    (start [matched_query; unmatched_query])
  = (start [matched_query; unmatched_query],
     inl (AssertionError WrongTargetCount)).
Proof.
  apply (callable_wrong_count_raises_assertion [yield_target MAX] two_values 2).
  - discriminate.
  - intros row _. by exists [num 1; num 2].
  - lia.
  - simpl. lia.
Defined.

Lemma ignore_mode_counterexample :
  matching_index example_table ["T"; "flow"] unmatched_query = inr [] /\
  (_lookup_targets_from_dataframe zero_entropy [yield_target MAX]
     example_table "ignore" (start [unmatched_query])).2
  = inl (AssertionError SearchSpaceNotReduced) /\
  (_lookup_targets_from_dataframe zero_entropy [yield_target MAX]
     example_table "ignore" (start [unmatched_query])).2
  <> inl InvariantViolation.
Proof. repeat split; [reflexivity.. | discriminate]. Qed.


Lemma error_mode_counterexample :
  matching_index example_table ["T"; "flow"] unmatched_query = inr [] /\
  (_lookup_targets_from_dataframe zero_entropy [yield_target MAX]
     example_table "error" (start [unmatched_query])).2
  = inl (IndexError unmatched_query) /\
  forall row,
    (_lookup_targets_from_dataframe zero_entropy [yield_target MAX]
       example_table "error" (start [unmatched_query])).2
    <> inl (LookupMissError row).
Proof. repeat split; [reflexivity.. | discriminate]. Qed.


Lemma unrecognized_mode_counterexample :
  ("median" ∉ recognized_modes) /\
  matching_index example_table ["T"; "flow"] unmatched_query = inr [] /\
  (_lookup_targets_from_dataframe zero_entropy [yield_target MAX]
     example_table "median" (start [unmatched_query])).2
  = inl (IndexError unmatched_query) /\
  (_lookup_targets_from_dataframe zero_entropy [yield_target MAX]
     example_table "median" (start [unmatched_query])).2
  <> inl ConfigurationError.
Proof.
  split; [|repeat split; [reflexivity.. | discriminate]].
  unfold recognized_modes. intros H.
  repeat (apply elem_of_cons in H as [H|H]; [discriminate|]).
  by apply elem_of_nil in H.
Qed.

Lemma median_is_not_recognized : "median" ∉ recognized_modes.
Proof.
  unfold recognized_modes. intros H.
  repeat (apply elem_of_cons in H as [H|H]; [discriminate|]).
  by apply elem_of_nil in H.
Defined.

Lemma unrecognized_mode_raises_index_error_witness :
  exists w' row0,
    row0 ∈ data (queries (start [matched_query; unmatched_query])) /\
    matching_index example_table
      (columns (queries (start [matched_query; unmatched_query]))) row0
      = inr [] /\
    _lookup_targets_from_dataframe zero_entropy [yield_target MAX]
      example_table "median" (start [matched_query; unmatched_query])
    = (w', inl (IndexError row0)) /\
    queries w' = queries (start [matched_query; unmatched_query]).
Proof.
  apply (proj2 (unrecognized_mode_raises_index_error zero_entropy
                  [yield_target MAX] example_table "median"
                  (start [matched_query; unmatched_query])
                  median_is_not_recognized
                  unmatched_query_has_no_match)).
  apply example_target_present.
Defined.


(** The imputed [Yield] of the example is [(50 + 90) / 2]. *)
Lemma mean_of_example_table :
  exists m,
    (_impute_lookup zero_entropy unmatched_query example_table
       [yield_target MIN] "mean" (start [unmatched_query])).2 = inr [VNum m] /\
    (m == 70)%Q.
Proof. eexists. split; reflexivity. Qed.

(** The end-to-end example: mode ["best"] on the [MAX] target imputes
    [90], the largest [Yield] of the table. *)
Lemma best_of_example_table :
  at_ (queries (_lookup_targets_from_dataframe zero_entropy [yield_target MAX]
                  example_table "best" (start [unmatched_query])).1)
      0 "Yield" = Some (num 90).
Proof. reflexivity. Qed.

(** C8. The claim fails on the code for a [MATCH] target: with the table of
    the example, the target [Yield] matching the interval [40, 70] (centre
    55) and mode ["best"], the closest observation is the [Yield] 50 of the
    first row, and the code raises [KeyError] instead of returning it,
    because the cells [25, 10, 50] of that row are used as row labels.
    The call as a whole raises as well and writes nothing. *)
Theorem best_match_target_raises_on_example :
  idxmin (series_abs [num (50 - 55); num (90 - 55)]) = inr 0 /\
  _impute_lookup zero_entropy unmatched_query example_table
    [yield_target MATCH] "best" (start [unmatched_query])
  = (start [unmatched_query], inl KeyError) /\
  _lookup_targets_from_dataframe zero_entropy [yield_target MATCH]
    example_table "best" (start [unmatched_query])
  = (start [unmatched_query], inl KeyError).
Proof. repeat split. Qed.

(** Row labels that do exist do not help: the selection is then a series,
    which has no [flatten]. *)
Lemma best_match_target_raises_with_valid_labels :
  _impute_lookup zero_entropy [num 5]
    (mkFrame ["T"; "Yield"] [[num 0; num 1]; [num 1; num 0]])
    [mkTarget "Yield" MATCH (mkInterval 0 2)] "best" (start [])
  = (start [], inl AttributeError).
Proof. reflexivity. Qed.

Lemma missing_value_never_matches_witness :
  matching_index example_table ["T"; "flow"] [num 25; VNaN] = inr [] /\
  match_vals_of zero_entropy [yield_target MAX] example_table "ignore"
    ["T"; "flow"] [num 25; VNaN] (start [[num 25; VNaN]])
  = (start [[num 25; VNaN]], inl (AssertionError SearchSpaceNotReduced)).
Proof.
  split.
  - apply (proj1 (proj2 (missing_value_never_matches zero_entropy))).
    + reflexivity.
    + right. by left.
    + apply example_columns_present.
  - apply (proj2 (proj2 (missing_value_never_matches zero_entropy))
             [yield_target MAX] example_table "ignore").
    + reflexivity.
    + right. by left.
    + apply example_columns_present.
Defined.

Lemma other_lookup_source_is_noop_witness :
  look_up_targets zero_entropy no_fake_results [yield_target MAX] LookupOther
    "error" (start [matched_query])
  = (start [matched_query], inr tt).
Proof.
  apply (other_lookup_source_is_noop zero_entropy no_fake_results
           [yield_target MAX] LookupOther "error" (start [matched_query]));
    discriminate.
Defined.

(** * Further properties *)

(** ** Columns that are not assigned *)

Lemma get_loc_not_elem cols c : c ∉ cols -> get_loc cols c = inl KeyError.
Proof.
  induction cols as [|c' cols IH]; simpl; intros H; [done|].
  apply not_elem_of_cons in H as (Hne & H).
  destruct (String.eqb_spec c' c) as [->|_]; [done|].
  by rewrite IH.
Qed.

Lemma get_loc_inl cols c e :
  get_loc cols c = inl e -> e = KeyError /\ c ∉ cols.
Proof.
  intros H. destruct (decide (c ∈ cols)) as [Hin|Hnin].
  - destruct (get_loc_elem _ _ Hin) as (j & Hj). congruence.
  - rewrite (get_loc_not_elem _ _ Hnin) in H. by inversion H.
Qed.

Lemma add_column_row df k i r :
  data df !! i = Some r ->
  exists r', data (add_column df k) !! i = Some r' /\
             length r <= length r' /\
             forall j, j < length r -> r' !! j = r !! j.
Proof.
  intros Hr. unfold add_column.
  destruct (get_loc (columns df) k); simpl.
  - exists (r ++ [VNaN]). rewrite list_lookup_fmap, Hr. split; [done|].
    split; [rewrite length_app; lia|].
    intros j Hj. by apply lookup_app_l.
  - exists r. by repeat split.
Qed.

Lemma ensure_columns_row df keys i r :
  data df !! i = Some r ->
  exists r', data (ensure_columns df keys) !! i = Some r' /\
             length r <= length r' /\
             forall j, j < length r -> r' !! j = r !! j.
Proof.
  unfold ensure_columns. revert df r.
  induction keys as [|k keys IH]; simpl; intros df r Hr.
  - exists r. by repeat split.
  - destruct (add_column_row df k i r Hr) as (r1 & Hr1 & Hlen1 & Hsame1).
    destruct (IH _ _ Hr1) as (r2 & Hr2 & Hlen2 & Hsame2).
    exists r2. split; [done|]. split; [lia|].
    intros j Hj. rewrite Hsame2 by lia. by apply Hsame1.
Qed.

Lemma add_column_prefix df k :
  columns df `prefix_of` columns (add_column df k).
Proof.
  unfold add_column. destruct (get_loc (columns df) k); simpl.
  - by apply prefix_app_r.
  - done.
Qed.

Lemma ensure_columns_prefix df keys :
  columns df `prefix_of` columns (ensure_columns df keys).
Proof.
  unfold ensure_columns. revert df.
  induction keys as [|k keys IH]; simpl; intros df; [done|].
  etrans; [apply add_column_prefix | apply IH].
Qed.

Lemma add_column_misses df k c :
  c <> k -> c ∉ columns df -> c ∉ columns (add_column df k).
Proof.
  intros Hne Hc. unfold add_column.
  destruct (get_loc (columns df) k); simpl; [|done].
  rewrite elem_of_app, list_elem_of_singleton. by intros [?|?].
Qed.

Lemma ensure_columns_misses df keys c :
  c ∉ keys -> c ∉ columns df -> c ∉ columns (ensure_columns df keys).
Proof.
  unfold ensure_columns. revert df.
  induction keys as [|k keys IH]; simpl; intros df Hk Hc; [done|].
  apply not_elem_of_cons in Hk as (Hne & Hk).
  apply IH; [done|]. by apply add_column_misses.
Qed.

Lemma fold_set_cell_other cols kvs r j :
  (forall c v, (c, v) ∈ kvs -> get_loc cols c <> inr j) ->
  fold_left (set_cell cols) kvs r !! j = r !! j.
Proof.
  revert r. induction kvs as [|[c v] kvs IH]; simpl; intros r H; [done|].
  rewrite IH by (intros c' v' Hin; apply (H c' v'); by right).
  unfold set_cell. simpl.
  destruct (get_loc cols c) as [e|j'] eqn:E; [done|].
  apply list_lookup_insert_ne. intros ->.
  by apply (H c v); [left|].
Qed.

(** [df.loc[:, keys] = arr] leaves the cells of every other column as they
    were. *)
Lemma write_columns_at_other df keys arr i c :
  wf_frame df -> length arr = length (data df) -> c ∉ keys ->
  at_ (write_columns df keys arr) i c = at_ df i c.
Proof.
  intros Hwf Hlen Hc. unfold at_, write_columns. simpl.
  destruct (get_loc (columns df) c) as [e|j] eqn:Hj.
  - apply get_loc_inl in Hj as (_ & Hnin).
    by rewrite (get_loc_not_elem _ _ (ensure_columns_misses _ _ _ Hc Hnin)).
  - rewrite (ensure_columns_keeps _ keys _ _ Hj).
    rewrite lookup_zip_with.
    destruct (data df !! i) as [r|] eqn:Hr.
    + destruct (ensure_columns_row df keys i r Hr) as (r' & -> & Hlen' & Hsame).
      simpl. destruct (lookup_lt_is_Some_2 arr i) as (vals & ->).
      { rewrite Hlen. by eapply lookup_lt_Some. }
      simpl. unfold set_row. rewrite fold_set_cell_other.
      * apply Hsame. unfold wf_frame in Hwf. rewrite Forall_forall in Hwf.
        rewrite (Hwf r) by (by eapply list_elem_of_lookup_2).
        by eapply get_loc_lt.
      * intros c' v' Hin Hc'. apply Hc.
        apply elem_of_zip_l in Hin.
        by rewrite (get_loc_inj _ _ _ _
                      (ensure_columns_keeps _ keys _ _ Hj) Hc').
    + assert (data (ensure_columns df keys) !! i = None) as ->; [|done].
      apply lookup_ge_None. rewrite ensure_columns_length.
      by apply lookup_ge_None.
Qed.

Lemma rmap_get_loc_missing cols cs c :
  c ∈ cs -> c ∉ cols -> rmap (get_loc cols) cs = inl KeyError.
Proof.
  induction cs as [|c' cs IH]; simpl; intros Hin Hc.
  - by apply elem_of_nil in Hin.
  - destruct (get_loc cols c') as [e|j] eqn:E; simpl.
    + apply get_loc_inl in E as (-> & _). done.
    + apply elem_of_cons in Hin as [->|Hin].
      * rewrite (get_loc_not_elem _ _ Hc) in E. discriminate.
      * by rewrite IH.
Qed.

Section FurtherLookupProperties.

Variable entropy : nat -> nat.

(** ** The query frame after a table lookup *)

(** X1. A table lookup that returns keeps the columns the query frame had,
    in their order, and changes no cell outside the target columns. *)
Theorem table_lookup_keeps_other_columns targets lookup impute_mode w w' :
  wf_frame (queries w) ->
  _lookup_targets_from_dataframe entropy targets lookup impute_mode w
    = (w', inr tt) ->
  columns (queries w) `prefix_of` columns (queries w') /\
  forall i c, c ∉ map name targets ->
    at_ (queries w') i c = at_ (queries w) i c.
Proof.
  intros Hwf Hrun.
  apply dataframe_lookup_inr in Hrun as (arr & [->|(Hd & ->)] & Hlen & _).
  - split.
    + unfold write_columns. simpl. apply ensure_columns_prefix.
    + intros i c Hc. by apply write_columns_at_other.
  - split.
    + unfold append_missing. simpl. by apply prefix_app_r.
    + intros i c Hc. unfold at_, append_missing. simpl. rewrite Hd. simpl.
      by destruct (get_loc _ c), (get_loc _ c).
Qed.

(** X2. On a query frame without rows the table lookup always returns,
    whatever the table and the impute mode: the target names become columns
    of the still empty frame, nothing is warned about and no random draw is
    consumed. *)
Theorem empty_query_frame_returns targets lookup impute_mode w :
  data (queries w) = [] ->
  exists w',
    _lookup_targets_from_dataframe entropy targets lookup impute_mode w
      = (w', inr tt) /\
    data (queries w') = [] /\
    columns (queries w) `prefix_of` columns (queries w') /\
    (forall t, t ∈ targets -> name t ∈ columns (queries w')) /\
    warnings w' = warnings w /\ draws w' = draws w.
Proof.
  intros Hd.
  assert (_lookup_targets_from_dataframe entropy targets lookup impute_mode w
          = loc_setitem (map name targets) [] w) as ->.
  { unfold _lookup_targets_from_dataframe, bind, get_queries.
    by rewrite Hd. }
  unfold loc_setitem. destruct (repeated (map name targets)).
  - eexists. split; [reflexivity|]. simpl.
    split; [by rewrite Hd|]. split; [by apply prefix_app_r|].
    split; [|done]. intros t Ht. apply elem_of_app.
    destruct (is_column_of (queries w) (name t)) eqn:E.
    + left. unfold is_column_of in E.
      apply existsb_exists in E as (c & Hin & Heq).
      apply String.eqb_eq in Heq. subst c. by apply list_elem_of_In.
    + right. apply list_elem_of_In, filter_In. split.
      * by apply list_elem_of_In, elem_of_names.
      * by rewrite E.
  - eexists. split; [reflexivity|]. simpl.
    split; [|split; [|split]]; [| | |done].
    + apply length_zero_iff_nil. rewrite length_zip_with. simpl. lia.
    + apply ensure_columns_prefix.
    + intros t Ht.
      destruct (ensure_columns_has (queries w) (map name targets) (name t))
        as (j & Hj); [by apply elem_of_names|].
      eapply list_elem_of_lookup_2, get_loc_lookup, Hj.
Qed.

(** X3. A query column that the reference table does not have makes the
    lookup of a non-empty query frame raise [KeyError] at its first row,
    with the whole program state as it was. *)
Theorem missing_query_column_raises_key_error targets lookup impute_mode w c :
  data (queries w) <> [] ->
  c ∈ columns (queries w) -> c ∉ columns lookup ->
  _lookup_targets_from_dataframe entropy targets lookup impute_mode w
    = (w, inl KeyError).
Proof.
  intros Hne Hc Hmiss.
  unfold _lookup_targets_from_dataframe, bind at 1, get_queries.
  destruct (data (queries w)) as [|row rows]; [done|].
  simpl. unfold bind at 1. unfold match_vals_of at 1, bind at 1, lift.
  unfold matching_index, loc_columns.
  by rewrite (rmap_get_loc_missing _ _ c Hc Hmiss).
Qed.

(** ** The rows selected by the matching expression *)

(** X4. When the table has every query column, the matching expression
    returns, in increasing order and without repetition, exactly the labels
    of the table rows that agree with the query row on every query column
    under the elementwise [==]. *)
Theorem matching_index_spec lookup qcols row :
  (forall c, c ∈ qcols -> c ∈ columns lookup) ->
  exists ind,
    matching_index lookup qcols row = inr ind /\
    StronglySorted lt ind /\
    forall j, j ∈ ind <->
      exists r, data lookup !! j = Some r /\
        forall k c v, qcols !! k = Some c -> row !! k = Some v ->
          exists jc, get_loc (columns lookup) c = inr jc /\
                     value_eqb (cell r jc) v = true.
Proof.
  intros Hcols.
  destruct (matching_index_total lookup qcols row Hcols) as (ind & Hind).
  exists ind. split; [done|].
  destruct (matching_index_inr _ _ _ _ Hind) as (Hsorted & Hchar).
  split; [done|]. intros j. rewrite Hchar. apply matches_rows.
Qed.

(** ** Ambiguous matches *)

(** X5. A query row matching several table rows is reported in one warning
    naming exactly the matching labels, costs one random draw, and receives
    the target values of one of the matching rows. *)
Theorem ambiguous_match_picks_a_matching_row targets lookup impute_mode
    qcols row ind w :
  matching_index lookup qcols row = inr ind ->
  2 <= length ind ->
  (forall t, t ∈ targets -> name t ∈ columns lookup) ->
  exists j vals,
    j ∈ ind /\
    loc_row lookup j (map name targets) = inr vals /\
    match_vals_of entropy targets lookup impute_mode qcols row w =
      (mkWorld (queries w) (warnings w ++ [ind]) (S (draws w)), inr vals).
Proof.
  intros Hm Hlen Hcols.
  destruct ind as [|i0 [|i1 ind]]; simpl in Hlen; [lia..|].
  destruct (random_choice_elem entropy (i1 :: ind)
              (mkWorld (queries w) (warnings w ++ [i0 :: i1 :: ind]) (draws w))
              i0) as (j & Hj & Hchoice).
  destruct (loc_row_total lookup j (map name targets)) as (vals & Hvals).
  { eapply matching_index_bound; [exact Hm | done]. }
  { intros c Hc. apply list_elem_of_fmap in Hc as (t & -> & Ht). auto. }
  exists j, vals. split; [done|]. split; [done|].
  unfold match_vals_of, bind at 1, lift. rewrite Hm.
  unfold bind at 1, warn. unfold bind. rewrite Hchoice. simpl.
  by rewrite Hvals.
Qed.

(** ** Modes that never impute *)

Lemma not_imputing_mode impute_mode :
  impute_mode ∉ imputing_modes ->
  String.eqb impute_mode "mean" = false /\
  String.eqb impute_mode "worst" = false /\
  String.eqb impute_mode "best" = false /\
  String.eqb impute_mode "random" = false.
Proof.
  intros H. repeat split; apply String.eqb_neq; intros ->; apply H;
    unfold imputing_modes; repeat constructor.
Qed.

Lemma match_vals_of_strict_inr targets lookup impute_mode qcols row w1 w2 vals :
  impute_mode ∉ imputing_modes ->
  match_vals_of entropy targets lookup impute_mode qcols row w1
    = (w2, inr vals) ->
  exists ind j,
    matching_index lookup qcols row = inr ind /\ j ∈ ind /\
    loc_row lookup j (map name targets) = inr vals.
Proof.
  intros Hmode H. apply not_imputing_mode in Hmode as (Hm & Hw & Hb & Hr).
  unfold match_vals_of in H.
  apply bind_inr in H as (w3 & ind & Hind & H).
  inversion Hind as [[Hw3 Hmatch]]. exists ind.
  destruct ind as [|i0 [|i1 ind]].
  - destruct (String.eqb impute_mode "ignore"); [discriminate|].
    rewrite impute_lookup_else in H by done. discriminate.
  - inversion H as [[Hw' Hloc]]. exists i0. split; [done|].
    split; [by left | done].
  - apply bind_inr in H as (w4 & [] & Hwarn & H).
    apply bind_inr in H as (w5 & j & Hchoice & H).
    destruct (random_choice_elem entropy (i1 :: ind) w4 i0)
      as (j' & Hj' & Hchoice').
    rewrite Hchoice' in Hchoice. inversion Hchoice; subst.
    inversion H as [[Hw' Hloc]]. exists j. by repeat split.
Qed.

(** X6. With an impute mode other than ["mean"], ["worst"], ["best"] and
    ["random"], a table lookup that returns has imputed nothing: every query
    row has a matching table row whose target values are the ones now in the
    query row. *)
Theorem strict_modes_write_only_table_values targets lookup impute_mode w w' :
  impute_mode ∉ imputing_modes ->
  wf_frame (queries w) ->
  _lookup_targets_from_dataframe entropy targets lookup impute_mode w
    = (w', inr tt) ->
  forall i row, data (queries w) !! i = Some row ->
    exists ind j,
      matching_index lookup (columns (queries w)) row = inr ind /\
      j ∈ ind /\
      forall t, t ∈ targets ->
        exists v, loc_cell lookup j (name t) = inr v /\
                  at_ (queries w') i (name t) = Some v.
Proof.
  intros Hmode Hwf Hrun i row Hrow.
  destruct (dataframe_lookup_inr_row _ _ _ _ _ _ _ _ Hrun Hrow)
    as (arr & w1 & w2 & vals & -> & Hbody & Hvals).
  pose proof (match_vals_of_length _ _ _ _ _ _ _ _ _ Hbody) as Hl.
  destruct (match_vals_of_strict_inr _ _ _ _ _ _ _ _ Hmode Hbody)
    as (ind & j & Hm & Hj & Hloc).
  exists ind, j. split; [done|]. split; [done|].
  intros t Ht.
  destruct (write_columns_at (queries w) (map name targets) arr i (name t)
              (fun v => loc_cell lookup j (name t) = inr v) vals)
    as (v & Hat & Hv).
  - done.
  - by eapply lookup_lt_Some.
  - done.
  - by rewrite Hl, length_map.
  - by apply elem_of_names.
  - intros v' Hin. by eapply loc_row_zip.
  - exists v. by rewrite Hat.
Qed.

(** ** Where randomness enters *)

Lemma match_vals_of_without_draw targets lookup impute_mode qcols row :
  impute_mode <> "random" ->
  (forall ind, matching_index lookup qcols row = inr ind -> length ind <= 1) ->
  exists r, forall e w1,
    match_vals_of e targets lookup impute_mode qcols row w1 = (w1, r).
Proof.
  intros Hmode Hone. apply String.eqb_neq in Hmode.
  unfold match_vals_of, bind, lift.
  destruct (matching_index lookup qcols row) as [err|ind] eqn:Hm.
  - by eexists.
  - specialize (Hone ind eq_refl).
    destruct ind as [|i0 [|i1 ind]]; simpl in Hone; [| |lia].
    + unfold _impute_lookup, raise, lift. rewrite Hmode.
      destruct (String.eqb impute_mode "ignore"); [by eexists|].
      destruct (String.eqb impute_mode "mean"); [by eexists|].
      destruct (String.eqb impute_mode "worst"); [by eexists|].
      destruct (String.eqb impute_mode "best"); by eexists.
    + exists (loc_row lookup i0 (map name targets)). intros e w1.
      by destruct (loc_row lookup i0 (map name targets)).
Qed.

Lemma for_each_without_state {A B} (body1 body2 : A -> M B) l :
  (forall a, a ∈ l ->
     exists r, forall w, body1 a w = (w, r) /\ body2 a w = (w, r)) ->
  exists R, forall w,
    for_each body1 l w = (w, R) /\ for_each body2 l w = (w, R).
Proof.
  induction l as [|a l IH]; intros H; simpl.
  - by eexists.
  - destruct (H a) as (r & Hr); [by left|].
    destruct IH as (R & HR); [intros; apply H; by right|].
    destruct r as [e|b].
    + exists (inl e). intros w. unfold bind.
      destruct (Hr w) as (-> & ->). done.
    + destruct R as [e|bs].
      * exists (inl e). intros w. unfold bind.
        destruct (Hr w) as (-> & ->). destruct (HR w) as (-> & ->). done.
      * exists (inr (b :: bs)). intros w. unfold bind.
        destruct (Hr w) as (-> & ->). destruct (HR w) as (-> & ->). done.
Qed.

(** X7. Randomness only serves duplicated table rows and mode ["random"]:
    when no query row matches more than one table row and the mode is not
    ["random"], the outcome of the table lookup is the same for every
    stream of draws, no draw is consumed and nothing is warned about. *)
Theorem lookup_without_duplicates_ignores_entropy targets lookup impute_mode w :
  impute_mode <> "random" ->
  (forall row ind, row ∈ data (queries w) ->
     matching_index lookup (columns (queries w)) row = inr ind ->
     length ind <= 1) ->
  (forall entropy',
     _lookup_targets_from_dataframe entropy' targets lookup impute_mode w =
     _lookup_targets_from_dataframe entropy targets lookup impute_mode w) /\
  (forall w' r,
     _lookup_targets_from_dataframe entropy targets lookup impute_mode w
       = (w', r) ->
     warnings w' = warnings w /\ draws w' = draws w).
Proof.
  intros Hmode Hone.
  assert (forall e', exists R, forall w1,
    for_each (match_vals_of e' targets lookup impute_mode (columns (queries w)))
      (data (queries w)) w1 = (w1, R) /\
    for_each (match_vals_of entropy targets lookup impute_mode
                (columns (queries w)))
      (data (queries w)) w1 = (w1, R)) as Hloop.
  { intros e'. apply for_each_without_state. intros row Hrow.
    destruct (match_vals_of_without_draw targets lookup impute_mode
                (columns (queries w)) row Hmode) as (r & Hr).
    { intros ind. by apply Hone. }
    exists r. intros w1. by rewrite !Hr. }
  split.
  - intros e'. destruct (Hloop e') as (R & HR).
    unfold _lookup_targets_from_dataframe, bind, get_queries.
    destruct (HR w) as (-> & ->). done.
  - intros w' r Hrun. destruct (Hloop entropy) as (R & HR).
    unfold _lookup_targets_from_dataframe, bind, get_queries in Hrun.
    destruct (HR w) as (Hrun' & _). rewrite Hrun' in Hrun.
    destruct R as [e|vals]; [by inversion Hrun; subst|].
    unfold loc_setitem in Hrun.
    destruct (repeated (map name targets)); [destruct vals|];
      inversion Hrun; subst; done.
Qed.

(** ** A target that the table does not have *)

Lemma rmap_some_failure {A B} (f : A -> result B) l :
  (exists a e, a ∈ l /\ f a = inl e) -> exists e, rmap f l = inl e.
Proof.
  induction l as [|a l IH]; intros (a0 & e0 & Hin & Hf).
  - by apply elem_of_nil in Hin.
  - simpl. destruct (f a) as [e|b] eqn:E; simpl; [by eexists|].
    apply elem_of_cons in Hin as [->|Hin]; [congruence|].
    destruct IH as (e & ->); [by eauto|]. by eexists.
Qed.

Lemma loc_column_missing lookup c :
  c ∉ columns lookup -> loc_column lookup c = inl KeyError.
Proof. intros H. unfold loc_column. by rewrite get_loc_not_elem. Qed.

Lemma impute_lookup_missing_target row lookup targets impute_mode t w :
  t ∈ targets -> name t ∉ columns lookup ->
  exists w' e,
    _impute_lookup entropy row lookup targets impute_mode w = (w', inl e).
Proof.
  intros Ht Hmiss. unfold _impute_lookup.
  destruct (String.eqb impute_mode "mean").
  { destruct (rmap_some_failure (loc_column lookup) (map name targets))
      as (e & He).
    { exists (name t), KeyError. split; [by apply elem_of_names|].
      by apply loc_column_missing. }
    unfold lift. rewrite He. by eexists _, _. }
  destruct (String.eqb impute_mode "worst").
  { destruct (rfold_some_failure (worst_target lookup) targets []) as (e & He).
    { exists t. split; [done|]. intros acc. unfold worst_target.
      rewrite (loc_column_missing _ _ Hmiss).
      destruct (mode t); simpl; by eexists. }
    unfold lift. rewrite He. by eexists _, _. }
  destruct (String.eqb impute_mode "best").
  { destruct (rfold_some_failure (best_target lookup) targets []) as (e & He).
    { exists t. split; [done|]. intros acc. unfold best_target.
      rewrite (loc_column_missing _ _ Hmiss).
      destruct (mode t); simpl; by eexists. }
    unfold lift. rewrite He. by eexists _, _. }
  destruct (String.eqb impute_mode "random"); [|by eexists _, _].
  unfold bind. destruct (random_choice entropy (index lookup) w)
    as [w1 [e|i]]; [by eexists _, _|].
  destruct (rfold_some_failure (random_target lookup i) targets []) as (e & He).
  { exists t. split; [done|]. intros acc. unfold random_target, loc_cell.
    rewrite (get_loc_not_elem _ _ Hmiss). by eexists. }
  unfold lift. rewrite He. by eexists _, _.
Qed.

Lemma match_vals_of_missing_target targets lookup impute_mode qcols row t w :
  t ∈ targets -> name t ∉ columns lookup ->
  exists w' e,
    match_vals_of entropy targets lookup impute_mode qcols row w = (w', inl e).
Proof.
  intros Ht Hmiss.
  assert (forall i, loc_row lookup i (map name targets) = inl KeyError) as Hloc.
  { intros i. unfold loc_row.
    by rewrite (rmap_get_loc_missing _ _ (name t) (elem_of_names _ _ Ht) Hmiss). }
  unfold match_vals_of, bind at 1, lift.
  destruct (matching_index lookup qcols row) as [e|[|i0 [|i1 ind]]];
    [by eexists _, _| | |].
  - destruct (String.eqb impute_mode "ignore"); [by eexists _, _|].
    by eapply impute_lookup_missing_target.
  - rewrite Hloc. by eexists _, _.
  - unfold bind at 1, warn. unfold bind.
    destruct (random_choice entropy (i0 :: i1 :: ind) _) as [w1 [e|j]];
      [by eexists _, _|].
    rewrite Hloc. by eexists _, _.
Qed.

(** X8. A target whose name is not a column of the reference table can
    never be resolved: on a query frame with at least one row the lookup
    raises in every impute mode, and the query frame is left as it was. *)
Theorem missing_target_column_never_resolves targets lookup impute_mode w t :
  data (queries w) <> [] ->
  t ∈ targets -> name t ∉ columns lookup ->
  exists w' e,
    _lookup_targets_from_dataframe entropy targets lookup impute_mode w
      = (w', inl e) /\
    queries w' = queries w.
Proof.
  intros Hne Ht Hmiss. apply unmatched_row_fails.
  destruct (data (queries w)) as [|row rows]; [done|].
  exists row. split; [by left|]. intros w1.
  by eapply match_vals_of_missing_target.
Qed.

(** ** Imputation by a random observation *)

Lemma rfold_snoc_inv {A} (f : list value -> A -> result (list value))
    (P : A -> value -> Prop) l acc acc' :
  (forall b a b', a ∈ l -> f b a = inr b' -> exists v, b' = b ++ [v] /\ P a v) ->
  rfold f l acc = inr acc' ->
  exists vs, acc' = acc ++ vs /\ Forall2 P l vs.
Proof.
  revert acc. induction l as [|a l IH]; simpl; intros acc Hf H.
  - inversion H; subst. exists []. by rewrite app_nil_r.
  - apply rbind_inr in H as (b & Hb & H).
    destruct (Hf acc a b) as (v & -> & HP); [by left | done |].
    destruct (IH (acc ++ [v])) as (vs & -> & HF); [|done|].
    { intros b0 a0 b0' Ha0. apply Hf. by right. }
    exists (v :: vs). split; [by rewrite <- app_assoc|]. by constructor.
Qed.

Lemma numeric_values_elem s qs v :
  numeric_values s = inr qs -> v ∈ s -> (exists q, v = VNum q) \/ v = VNaN.
Proof.
  revert qs. induction s as [|x s IH]; simpl; intros qs H Hv.
  - by apply elem_of_nil in Hv.
  - destruct x as [q| | |]; try discriminate.
    + apply rbind_inr in H as (qs' & Hqs' & _).
      apply elem_of_cons in Hv as [->|Hv]; [left; by eexists | by eapply IH].
    + apply elem_of_cons in Hv as [->|Hv]; [by right | by eapply IH].
Qed.

Lemma index_lookup df i : i ∈ index df -> exists r, data df !! i = Some r.
Proof.
  unfold index. intros H. apply elem_of_seq in H.
  apply lookup_lt_is_Some_2. lia.
Qed.

(** X9. Mode ["random"] imputes one whole observation: it raises
    [ValueError] on an empty table; when it returns it has consumed one
    draw and the imputed values are, target by target, the cells of one and
    the same table row; and it does return on a non-empty table whose
    target columns are numeric. *)
Theorem random_imputation_is_one_table_row row lookup targets w :
  (data lookup = [] ->
   _impute_lookup entropy row lookup targets "random" w
     = (w, inl ValueError)) /\
  (forall w' vals,
     _impute_lookup entropy row lookup targets "random" w = (w', inr vals) ->
     draws w' = S (draws w) /\
     exists i r, data lookup !! i = Some r /\
       Forall2 (fun t v =>
                  exists j, get_loc (columns lookup) (name t) = inr j /\
                            v = cell r j) targets vals) /\
  (data lookup <> [] ->
   (forall t, t ∈ targets ->
      exists s qs, loc_column lookup (name t) = inr s /\
                   numeric_values s = inr qs) ->
   exists w' vals,
     _impute_lookup entropy row lookup targets "random" w = (w', inr vals)).
Proof.
  unfold _impute_lookup. simpl. split; [|split].
  - intros Hd. unfold bind, random_choice, index. by rewrite Hd.
  - intros w' vals H.
    apply bind_inr in H as (w1 & i & Hchoice & H).
    inversion H as [[Hw Hfold]]. subst w1.
    destruct (index lookup) as [|i0 l] eqn:Hidx; [discriminate|].
    destruct (random_choice_elem entropy l w i0) as (i' & Hi' & Hchoice').
    rewrite Hchoice' in Hchoice. inversion Hchoice; subst i' w'.
    split; [done|].
    destruct (index_lookup lookup i) as (r & Hr); [by rewrite Hidx|].
    exists i, r. split; [done|].
    destruct (rfold_snoc_inv (random_target lookup i)
      (fun t v => exists j, get_loc (columns lookup) (name t) = inr j /\
                            v = cell r j) targets [] vals) as (vs & -> & HF);
      [|done|done].
    intros b t b' _ Hstep. unfold random_target, loc_cell in Hstep.
    apply rbind_inr in Hstep as (c & Hc & Hstep).
    apply rbind_inr in Hstep as (v & Hv & Hstep). inversion Hstep; subst.
    apply rbind_inr in Hc as (j & Hj & Hc). rewrite Hr in Hc.
    inversion Hc; subst. apply flatten0_scalar in Hv as ->.
    exists (cell r j). split; [done|]. by exists j.
  - intros Hne Hcols.
    assert (exists i0 l, index lookup = i0 :: l) as (i0 & l & Hidx).
    { unfold index. destruct (data lookup); [done|]. simpl. by eexists _, _. }
    destruct (random_choice_elem entropy l w i0) as (i & Hi & Hchoice).
    destruct (index_lookup lookup i) as (r & Hr); [by rewrite Hidx|].
    destruct (rfold_snoc (random_target lookup i) (fun _ _ => True) targets [])
      as (vals & Hrun & _).
    { intros t Ht. destruct (Hcols t Ht) as (s & qs & Hs & Hqs).
      unfold loc_column in Hs. apply rbind_inr in Hs as (j & Hj & Hs).
      inversion Hs; subst.
      assert (cell r j ∈ map (fun r => cell r j) (data lookup)) as Hin.
      { apply list_elem_of_fmap. exists r. split; [done|].
        by eapply list_elem_of_lookup_2. }
      exists (cell r j). split; [done|]. intros acc.
      unfold random_target, loc_cell. rewrite Hj. cbn [rbind]. rewrite Hr.
      cbn [rbind ok].
      destruct (numeric_values_elem _ _ _ Hqs Hin) as [(q & ->)| ->]; done. }
    unfold bind. rewrite Hidx, Hchoice. unfold lift. rewrite Hrun.
    by eexists _, _.
Qed.

(** ** Imputation by the worst observation *)

Lemma worst_values_max_min row lookup targets w :
  data lookup <> [] ->
  (forall t, t ∈ targets ->
     mode t <> MATCH /\
     exists s qs, loc_column lookup (name t) = inr s /\
                  numeric_values s = inr qs) ->
  exists vals,
    _impute_lookup entropy row lookup targets "worst" w = (w, inr vals) /\
    forall k t s qs,
      targets !! k = Some t ->
      loc_column lookup (name t) = inr s ->
      numeric_values s = inr qs ->
      exists v, vals !! k = Some v /\ is_worst_of (mode t) qs v.
Proof.
  intros Hrows Hcols.
  destruct (rfold_snoc (worst_target lookup)
    (fun t v => forall s qs, loc_column lookup (name t) = inr s ->
                   numeric_values s = inr qs -> is_worst_of (mode t) qs v)
    targets []) as (vals & Hrun & HF).
  { intros t Ht. destruct (Hcols t Ht) as (Hm & s & qs & Hs & Hqs).
    pose proof (loc_column_nonempty _ _ _ Hrows Hs) as Hne.
    unfold worst_target. destruct (mode t) eqn:Em; [| |done].
    - destruct (series_min_spec s qs Hne Hqs) as (v & Hmin & Hbest & Hflat).
      exists v. split.
      + intros s' qs' Hs' Hqs'.
        assert (s' = s) as -> by congruence.
        assert (qs' = qs) as -> by congruence.
        by destruct qs.
      + intros acc. rewrite Hs. cbn [rbind]. rewrite Hmin. cbn [rbind].
        by rewrite Hflat.
    - destruct (series_max_spec s qs Hne Hqs) as (v & Hmax & Hbest & Hflat).
      exists v. split.
      + intros s' qs' Hs' Hqs'.
        assert (s' = s) as -> by congruence.
        assert (qs' = qs) as -> by congruence.
        by destruct qs.
      + intros acc. rewrite Hs. cbn [rbind]. rewrite Hmax. cbn [rbind].
        by rewrite Hflat. }
  exists vals. split.
  - unfold _impute_lookup. simpl. unfold lift. by rewrite Hrun.
  - intros k t s qs Hk Hs Hqs.
    destruct (Forall2_lookup_l _ _ _ _ _ HF Hk) as (v & Hv & HP).
    exists v. split; [done|]. by apply (HP s).
Qed.

(** Columns given cell by cell are columns of the model's selection. *)
Lemma numeric_columns_loc lookup (targets : list Target) :
  (forall t, t ∈ targets ->
     mode t <> MATCH /\
     exists s qs, is_column lookup (name t) s /\ numbers_of s qs) ->
  forall t, t ∈ targets ->
    mode t <> MATCH /\
    exists s qs, loc_column lookup (name t) = inr s /\
                 numeric_values s = inr qs.
Proof.
  intros H t Ht. destruct (H t Ht) as (Hm & s & qs & Hs & Hqs).
  split; [done|]. exists s, qs.
  split; [by apply is_column_loc | by apply numbers_of_numeric].
Qed.

(** X10. On a table with at least one row, for targets of mode [MAX] and
    [MIN] whose table columns hold numbers and missing values only, mode
    ["worst"] returns one value per target: the smallest number of the
    column of a [MAX] target and the largest of the column of a [MIN]
    target (the missing value for a column without numbers).  The column
    of a target is read cell by cell from the rows of the table. *)
Theorem worst_imputation_max_min row lookup targets w :
  data lookup <> [] ->
  (forall t, t ∈ targets ->
     mode t <> MATCH /\
     exists s qs, is_column lookup (name t) s /\ numbers_of s qs) ->
  exists vals,
    _impute_lookup entropy row lookup targets "worst" w = (w, inr vals) /\
    length vals = length targets /\
    forall k t s qs,
      targets !! k = Some t ->
      is_column lookup (name t) s ->
      numbers_of s qs ->
      exists v, vals !! k = Some v /\ is_worst_of (mode t) qs v.
Proof.
  intros Hrows Hcols.
  destruct (worst_values_max_min row lookup targets w Hrows
              (numeric_columns_loc _ _ Hcols)) as (vals & Hrun & Hspec).
  exists vals. split; [done|]. split; [by eapply impute_lookup_length|].
  intros k t s qs Hk Hs Hqs.
  apply (Hspec k t s qs Hk); [by apply is_column_loc|].
  by apply numbers_of_numeric.
Qed.

(** X11. A [MATCH] target makes mode ["worst"] raise, whatever the table
    and the other targets: the observation farthest from the centre is
    never returned. *)
Theorem worst_imputation_match_raises row lookup targets w :
  (exists t, t ∈ targets /\ mode t = MATCH) ->
  exists e, _impute_lookup entropy row lookup targets "worst" w = (w, inl e).
Proof.
  intros (t & Ht & Hm).
  destruct (rfold_some_failure (worst_target lookup) targets []) as (e & He).
  { exists t. split; [done|]. intros acc. unfold worst_target. rewrite Hm.
    cbn [rbind ok]. apply (match_branch_raises lookup idxmax acc t). }
  exists e. unfold _impute_lookup. simpl. unfold lift. by rewrite He.
Qed.

(** X12. On a table with at least one row and targets of mode [MAX] and
    [MIN] whose table columns hold numbers and missing values only, modes
    ["best"] and ["worst"] both return, and for a column with a number the
    best value is never less favourable than the worst one: at least as
    large for a [MAX] target, at most as large for a [MIN] target. *)
Theorem best_dominates_worst row lookup targets w :
  data lookup <> [] ->
  (forall t, t ∈ targets ->
     mode t <> MATCH /\
     exists s qs, is_column lookup (name t) s /\ numbers_of s qs) ->
  exists bvals wvals,
    _impute_lookup entropy row lookup targets "best" w = (w, inr bvals) /\
    _impute_lookup entropy row lookup targets "worst" w = (w, inr wvals) /\
    forall k t s q qs,
      targets !! k = Some t ->
      is_column lookup (name t) s ->
      numbers_of s (q :: qs) ->
      exists b wv,
        bvals !! k = Some (VNum b) /\ wvals !! k = Some (VNum wv) /\
        match mode t with
        | MAX => (wv <= b)%Q
        | MIN => (b <= wv)%Q
        | MATCH => False
        end.
Proof.
  intros Hrows Hcols.
  pose proof (numeric_columns_loc _ _ Hcols) as Hloc.
  destruct (best_imputation_max_min entropy row lookup targets w Hrows Hloc)
    as (bvals & Hbest & Hb).
  destruct (worst_values_max_min row lookup targets w Hrows Hloc)
    as (wvals & Hworst & Hw).
  exists bvals, wvals. split; [done|]. split; [done|].
  intros k t s q qs Hk Hs Hqs.
  apply is_column_loc in Hs. apply numbers_of_numeric in Hqs.
  destruct (Hb k t s _ Hk Hs Hqs) as (vb & Hvb & (b & -> & Hbspec)).
  destruct (Hw k t s _ Hk Hs Hqs) as (vw & Hvw & (wv & -> & Hwspec)).
  exists b, wv. split; [done|]. split; [done|].
  destruct (mode t); [| |done].
  - destruct Hbspec as (_ & Hmax). destruct Hwspec as (Hin & _). by apply Hmax.
  - destruct Hbspec as (_ & Hmin). destruct Hwspec as (Hin & _). by apply Hmin.
Qed.

End FurtherLookupProperties.

(** ** The callable source, continued *)

Lemma set_row_length cols keys r vals :
  length (set_row cols keys r vals) = length r.
Proof.
  unfold set_row. revert r.
  induction (zip keys vals) as [|kv kvs IH]; simpl; intros r; [done|].
  by rewrite IH, set_cell_length.
Qed.

Lemma write_columns_wf df keys arr :
  wf_frame df -> wf_frame (write_columns df keys arr).
Proof.
  intros Hwf. pose proof (ensure_columns_wf df keys Hwf) as Hwf'.
  unfold wf_frame in *. unfold write_columns. simpl.
  rewrite Forall_forall in Hwf'. rewrite Forall_forall. intros r' Hr'.
  apply list_elem_of_lookup in Hr' as (i & Hi).
  rewrite lookup_zip_with in Hi.
  destruct (data (ensure_columns df keys) !! i) as [r|] eqn:Hr; [|done].
  simpl in Hi. destruct (arr !! i) as [vals|]; [|done].
  inversion Hi; subst. rewrite set_row_length. apply Hwf'.
  by eapply list_elem_of_lookup_2.
Qed.

Lemma setitem_column_at_same df c s i v :
  wf_frame df -> i < length (data df) -> s !! i = Some v ->
  at_ (setitem_column df c s) i c = Some v.
Proof.
  intros Hwf Hi Hv. unfold setitem_column.
  destruct (write_columns_at df [c] (map (fun v => [v]) s) i c
              (fun v' => v' = v) [v]) as (v' & Hat & ->).
  - done.
  - done.
  - by rewrite list_lookup_fmap, Hv.
  - done.
  - by left.
  - intros v' Hin. apply list_elem_of_singleton in Hin. by inversion Hin.
  - done.
Qed.

Lemma setitem_column_at_other df c s i c' :
  wf_frame df -> length s = length (data df) -> c' <> c ->
  at_ (setitem_column df c s) i c' = at_ df i c'.
Proof.
  intros Hwf Hlen Hne. unfold setitem_column.
  apply write_columns_at_other; [done| |].
  - by rewrite length_map.
  - by intros Hin%list_elem_of_singleton.
Qed.

(** What the assignment loop of lines 79-80 leaves in the query frame. *)
Lemma assign_targets_spec measured targets k0 w :
  wf_frame (queries w) ->
  length measured = length (data (queries w)) ->
  NoDup (map name targets) ->
  exists w',
    assign_targets k0 targets measured w = (w', inr tt) /\
    warnings w' = warnings w /\ draws w' = draws w /\
    (forall i c, c ∉ map name targets ->
       at_ (queries w') i c = at_ (queries w) i c) /\
    (forall i m k t, measured !! i = Some m -> targets !! k = Some t ->
       at_ (queries w') i (name t) = Some (cell m (k0 + k))).
Proof.
  revert k0 w. induction targets as [|t targets IH]; intros k0 w Hwf Hlen Hnd.
  - exists w. by repeat split.
  - simpl in Hnd. apply NoDup_cons in Hnd as (Hfresh & Hnd).
    set (col := map (fun r => cell r k0) measured).
    set (w1 := mkWorld (setitem_column (queries w) (name t) col)
                       (warnings w) (draws w)).
    assert (length col = length (data (queries w))) as Hcol.
    { unfold col. by rewrite length_map. }
    destruct (IH (S k0) w1) as (w' & Hrun & Hwarn & Hdraws & Hother & Hsame).
    { apply write_columns_wf, Hwf. }
    { unfold w1. cbn [queries]. unfold setitem_column.
      rewrite write_columns_length; [done|]. by rewrite length_map. }
    { done. }
    exists w'. split; [|split; [|split; [|split]]].
    + simpl. unfold bind, modify_queries. exact Hrun.
    + by rewrite Hwarn.
    + by rewrite Hdraws.
    + intros i c Hc. simpl in Hc. apply not_elem_of_cons in Hc as (Hne & Hc).
      rewrite (Hother i c Hc). simpl. by apply setitem_column_at_other.
    + intros i m [|k] t' Hm Ht'; simpl in Ht'.
      * inversion Ht'; subst t'. rewrite (Hother i (name t) Hfresh). simpl.
        apply setitem_column_at_same; [done| |].
        -- rewrite <- Hlen. by eapply lookup_lt_Some.
        -- unfold col. rewrite list_lookup_fmap, Hm. simpl.
           by rewrite Nat.add_0_r.
      * rewrite (Hsame i m k t' Hm Ht'). do 2 f_equal. lia.
Qed.

(** X13. On a query frame with at least one row, a callable that returns
    as many values as there are targets, for every row, makes the call
    return; the value at position [k] of the tuple returned for a row is
    then the cell of that row in the column of the [k]-th target, columns
    that are no target keep their cells, and nothing is warned about or
    drawn.  The targets must have distinct names. *)
Theorem callable_success_assigns_by_position targets f w :
  wf_frame (queries w) ->
  data (queries w) <> [] ->
  NoDup (map name targets) ->
  1 <= length targets ->
  (forall row, row ∈ data (queries w) ->
     exists vs, f row = inr vs /\ length vs = length targets) ->
  exists w',
    _lookup_targets_from_callable targets f w = (w', inr tt) /\
    warnings w' = warnings w /\ draws w' = draws w /\
    (forall i c, c ∉ map name targets ->
       at_ (queries w') i c = at_ (queries w) i c) /\
    (forall i row vs k t,
       data (queries w) !! i = Some row -> f row = inr vs ->
       targets !! k = Some t ->
       exists v, vs !! k = Some v /\ at_ (queries w') i (name t) = Some v).
Proof.
  intros Hwf Hne Hnd Hpos Hf.
  destruct (rmap_total f (data (queries w))) as (tuples & Htup).
  { intros row Hrow. destruct (Hf row Hrow) as (vs & -> & _). by eexists. }
  assert (Forall (fun t => length t = length targets) tuples) as Hlens.
  { eapply rmap_Forall; [|exact Htup]. intros row vs Hrow Hvs.
    destruct (Hf row Hrow) as (vs' & Hvs' & Hlen). congruence. }
  assert (tuple_width tuples = length targets) as Hw.
  { apply tuple_width_const; [|done].
    apply rmap_length in Htup. destruct tuples; [|done].
    by destruct (data (queries w)). }
  set (measured := map (fun t => t ++ replicate (length targets - length t) VNaN)
                       tuples).
  destruct (assign_targets_spec measured targets 0 w) as
    (w' & Hrun & Hwarn & Hdraws & Hother & Hsame); [done| |done|].
  { unfold measured. rewrite length_map. by eapply rmap_length. }
  exists w'. split; [|split; [done|split; [done|split; [done|]]]].
  - unfold _lookup_targets_from_callable, bind at 1, get_queries.
    destruct (data (queries w)) as [|r rows] eqn:Hd; [done|].
    unfold bind, lift. rewrite Htup.
    unfold measured_targets_of, split_columns. cbn -[Nat.eqb]. rewrite Hw.
    destruct (length targets) as [|n] eqn:Hn; [lia|]. cbn -[Nat.eqb].
    rewrite Nat.eqb_refl. simpl. exact Hrun.
  - intros i row vs k t Hrow Hvs Hk.
    destruct (rmap_lookup _ _ _ _ _ Htup Hrow) as (vs' & Hvs' & Hti).
    assert (vs' = vs) as -> by congruence.
    assert (length vs = length targets) as Hlvs.
    { rewrite Forall_forall in Hlens. apply Hlens.
      by eapply list_elem_of_lookup_2. }
    destruct (lookup_lt_is_Some_2 vs k) as (v & Hv).
    { rewrite Hlvs. by eapply lookup_lt_Some. }
    exists v. split; [done|].
    rewrite (Hsame i (vs ++ replicate (length targets - length vs) VNaN) k t);
      [|by unfold measured; rewrite list_lookup_fmap, Hti|done].
    simpl. unfold cell. rewrite lookup_app_l by (by eapply lookup_lt_Some).
    by rewrite Hv.
Qed.

Lemma assign_targets_returns measured targets k0 w :
  exists w', assign_targets k0 targets measured w = (w', inr tt).
Proof.
  revert k0 w. induction targets as [|t targets IH]; intros k0 w; simpl.
  - by eexists.
  - unfold bind, modify_queries. apply IH.
Qed.

(** X14. Whatever makes the callable lookup raise - the callable itself on
    some row, or a number of returned values that is not the number of
    targets - the program state after the exception is the state before
    the call: no target column has been written. *)
Theorem callable_failure_leaves_state targets f w w' e :
  _lookup_targets_from_callable targets f w = (w', inl e) -> w' = w.
Proof.
  unfold _lookup_targets_from_callable, bind at 1, get_queries.
  unfold bind, lift. destruct (rmap f (data (queries w))) as [e'|tuples].
  - by inversion 1.
  - destruct (negb _); [by inversion 1|].
    intros H.
    destruct (assign_targets_returns (measured_targets_of tuples).2 targets 0 w)
      as (w1 & Hw1).
    rewrite Hw1 in H. discriminate.
Qed.

(** ** Scaling of the Latin hypercube sample *)

Lemma round_half_even_near q :
  (Qfloor q <= round_half_even q <= Qfloor q + 1)%Z.
Proof.
  unfold round_half_even.
  destruct (_ ?= _)%Q; [destruct (Z.even _)| |]; lia.
Qed.

Lemma round_half_even_ge z q :
  (inject_Z z <= q)%Q -> (z <= round_half_even q)%Z.
Proof.
  intros H. apply Qfloor_resp_le in H. rewrite Qfloor_Z in H.
  pose proof (round_half_even_near q). lia.
Qed.

Lemma round_half_even_le z q :
  (q <= inject_Z z)%Q -> (round_half_even q <= z)%Z.
Proof.
  intros H. pose proof (Qfloor_resp_le _ _ H) as Hf. rewrite Qfloor_Z in Hf.
  destruct (Z.eq_dec (Qfloor q) z) as [Heq|Hne].
  - unfold round_half_even.
    destruct (Qcompare_spec (q - inject_Z (Qfloor q)) (1 # 2)) as [E|L|G].
    + rewrite Heq in E. lra.
    + lia.
    + rewrite Heq in G. lra.
  - pose proof (round_half_even_near q). lia.
Qed.

Lemma scale_cell_within low high u :
  (low <= high)%Z -> (0 <= u)%Q -> (u <= 1)%Q ->
  (low <= scale_cell (low, high) u <= high)%Z.
Proof.
  intros Hlh H0 H1. unfold scale_cell.
  assert ((0 <= inject_Z (high - low))%Q) as Hd.
  { rewrite <- (Zle_Qle 0). lia. }
  assert ((inject_Z (high - low) == inject_Z high - inject_Z low)%Q) as Hsub.
  { unfold Z.sub. rewrite inject_Z_plus, inject_Z_opp. reflexivity. }
  pose proof (Qmult_le_0_compat _ _ H0 Hd) as Hp0.
  pose proof (Qmult_le_compat_r _ _ _ H1 Hd) as Hp1.
  rewrite Qmult_1_l in Hp1.
  set (x := (u * inject_Z (high - low))%Q) in *.
  split.
  - apply round_half_even_ge. lra.
  - apply round_half_even_le. lra.
Qed.

Lemma scale_params_within param_ranges params :
  (forall low high, (low, high) ∈ param_ranges -> (low <= high)%Z) ->
  length params = length param_ranges ->
  (forall u, u ∈ params -> (0 <= u)%Q /\ (u <= 1)%Q) ->
  exists row,
    scale_params param_ranges params = Some row /\
    forall k low high, param_ranges !! k = Some (low, high) ->
      exists z, row !! k = Some (inject_Z z) /\ (low <= z <= high)%Z.
Proof.
  revert params.
  induction param_ranges as [|[low high] ranges IH]; intros params Hr Hlen Hu.
  - exists params. by destruct params.
  - destruct params as [|u params]; [done|]. simpl in Hlen.
    destruct (IH params) as (rest & Hrest & Hspec).
    { intros l h Hin. apply Hr. by right. }
    { lia. }
    { intros u' Hin. apply Hu. by right. }
    exists (inject_Z (scale_cell (low, high) u) :: rest). split.
    + simpl scale_params. by rewrite Hrest.
    + intros [|k] l h Hk; simpl in Hk.
      * inversion Hk; subst. eexists. split; [done|].
        destruct (Hu u) as (H0 & H1); [by left|].
        apply scale_cell_within; [|done..]. apply Hr. by left.
      * by apply Hspec.
Qed.

(** X15. When every range has [low <= high] and the sample has one cell in
    [0, 1] per range in every row, the scaling loop goes through, keeps the
    number of rows, and every scaled cell is an integer within the range of
    its column.  A row with fewer cells than ranges stops the loop with the
    [IndexError] of the column access. *)
Theorem scaled_sample_within_ranges param_ranges lhs_sample :
  (forall low high, (low, high) ∈ param_ranges -> (low <= high)%Z) ->
  ((forall params, params ∈ lhs_sample ->
      length params = length param_ranges /\
      forall u, u ∈ params -> (0 <= u)%Q /\ (u <= 1)%Q) ->
   exists out,
     scale_sample param_ranges lhs_sample = Some out /\
     length out = length lhs_sample /\
     forall i row k low high,
       out !! i = Some row -> param_ranges !! k = Some (low, high) ->
       exists z, row !! k = Some (inject_Z z) /\ (low <= z <= high)%Z) /\
  ((exists params, params ∈ lhs_sample /\
      length params < length param_ranges) ->
   scale_sample param_ranges lhs_sample = None).
Proof.
  intros Hr. split.
  - induction lhs_sample as [|params sample IH]; intros Hs.
    + exists []. by repeat split.
    + destruct (Hs params) as (Hlen & Hu); [by left|].
      destruct (scale_params_within param_ranges params Hr Hlen Hu)
        as (row & Hrow & Hspec).
      destruct IH as (rows & Hrows & Hlens & Hall).
      { intros p Hp. apply Hs. by right. }
      exists (row :: rows). split; [|split].
      * simpl. by rewrite Hrow, Hrows.
      * simpl. by rewrite Hlens.
      * intros [|i] row' k low high Hi Hk; simpl in Hi.
        -- inversion Hi; subst. by apply Hspec.
        -- by eapply Hall.
  - intros (params & Hin & Hshort).
    assert (forall ranges ps, length ps < length ranges ->
              scale_params ranges ps = None) as Hnone.
    { induction ranges as [|range ranges IHr]; intros ps Hlt; simpl in Hlt;
        [lia|].
      destruct ps as [|u ps]; [done|]. simpl in *.
      rewrite IHr by lia. done. }
    induction lhs_sample as [|p sample IH]; [by apply elem_of_nil in Hin|].
    simpl. apply elem_of_cons in Hin as [<-|Hin].
    + by rewrite Hnone.
    + rewrite IH by done. by destruct (scale_params param_ranges p).
Qed.

(** ** The further properties on the example data *)

Lemma table_lookup_keeps_other_columns_witness :
  columns (queries (start [matched_query; unmatched_query]))
    `prefix_of`
  columns (queries (_lookup_targets_from_dataframe zero_entropy
                      [yield_target MAX] example_table "mean"
                      (start [matched_query; unmatched_query])).1) /\
  forall i c, c ∉ map name [yield_target MAX] ->
    at_ (queries (_lookup_targets_from_dataframe zero_entropy
                    [yield_target MAX] example_table "mean"
                    (start [matched_query; unmatched_query])).1) i c =
    at_ (queries (start [matched_query; unmatched_query])) i c.
Proof.
  apply (table_lookup_keeps_other_columns zero_entropy [yield_target MAX]
           example_table "mean" (start [matched_query; unmatched_query])).
  - repeat constructor.
  - reflexivity.
Defined.

Lemma empty_query_frame_returns_witness :
  exists w',
    _lookup_targets_from_dataframe zero_entropy [yield_target MATCH]
      gapped_table "ignore" (start []) = (w', inr tt) /\
    data (queries w') = [] /\
    columns (queries (start [])) `prefix_of` columns (queries w') /\
    (forall t, t ∈ [yield_target MATCH] -> name t ∈ columns (queries w')) /\
    warnings w' = warnings (start []) /\ draws w' = draws (start []).
Proof.
  apply (empty_query_frame_returns zero_entropy [yield_target MATCH]
           gapped_table "ignore" (start [])).
  reflexivity.
Defined.

Lemma missing_query_column_raises_key_error_witness :
  _lookup_targets_from_dataframe zero_entropy [yield_target MAX]
    (mkFrame ["T"; "Yield"] [[num 25; num 50]]) "mean" (start [matched_query])
  = (start [matched_query], inl KeyError).
Proof.
  apply (missing_query_column_raises_key_error zero_entropy [yield_target MAX]
           (mkFrame ["T"; "Yield"] [[num 25; num 50]]) "mean"
           (start [matched_query]) "flow").
  - discriminate.
  - right. by left.
  - simpl. intros H.
    repeat (apply elem_of_cons in H as [H|H]; [discriminate|]).
    by apply elem_of_nil in H.
Defined.

Lemma matching_index_spec_witness :
  exists ind,
    matching_index duplicated_table ["T"; "flow"] matched_query = inr ind /\
    StronglySorted lt ind /\
    forall j, j ∈ ind <->
      exists r, data duplicated_table !! j = Some r /\
        forall k c v, ["T"; "flow"] !! k = Some c ->
          matched_query !! k = Some v ->
          exists jc, get_loc (columns duplicated_table) c = inr jc /\
                     value_eqb (cell r jc) v = true.
Proof.
  apply (matching_index_spec duplicated_table ["T"; "flow"] matched_query).
  intros c Hc. simpl.
  apply elem_of_cons in Hc as [->|Hc]; [by left|].
  apply elem_of_cons in Hc as [->|Hc]; [right; by left|].
  by apply elem_of_nil in Hc.
Defined.

Lemma duplicated_target_present md t :
  t ∈ [yield_target md] -> name t ∈ columns duplicated_table.
Proof.
  intros Ht. apply list_elem_of_singleton in Ht. subst t. simpl.
  right. right. by left.
Defined.

Lemma ambiguous_match_picks_a_matching_row_witness :
  exists j vals,
    j ∈ [0; 2] /\
    loc_row duplicated_table j (map name [yield_target MAX]) = inr vals /\
    match_vals_of zero_entropy [yield_target MAX] duplicated_table "error"
      ["T"; "flow"] matched_query (start [matched_query]) =
      (mkWorld (queries (start [matched_query]))
               (warnings (start [matched_query]) ++ [[0; 2]])
               (S (draws (start [matched_query]))), inr vals).
Proof.
  apply (ambiguous_match_picks_a_matching_row zero_entropy [yield_target MAX]
           duplicated_table "error" ["T"; "flow"] matched_query [0; 2]
           (start [matched_query])).
  - reflexivity.
  - simpl. lia.
  - apply duplicated_target_present.
Defined.

Lemma error_is_not_imputing : "error" ∉ imputing_modes.
Proof.
  unfold imputing_modes. intros H.
  repeat (apply elem_of_cons in H as [H|H]; [discriminate|]).
  by apply elem_of_nil in H.
Defined.

Lemma strict_modes_write_only_table_values_witness :
  exists ind j,
    matching_index duplicated_table
      (columns (queries (start [matched_query]))) matched_query = inr ind /\
    j ∈ ind /\
    forall t, t ∈ [yield_target MAX] ->
      exists v, loc_cell duplicated_table j (name t) = inr v /\
        at_ (queries (_lookup_targets_from_dataframe zero_entropy
                        [yield_target MAX] duplicated_table "error"
                        (start [matched_query])).1) 0 (name t) = Some v.
Proof.
  apply (strict_modes_write_only_table_values zero_entropy [yield_target MAX]
           duplicated_table "error" (start [matched_query]) _
           error_is_not_imputing ltac:(repeat constructor) eq_refl
           0 matched_query eq_refl).
Defined.

Lemma example_queries_match_at_most_once row ind :
  row ∈ data (queries (start [matched_query; unmatched_query])) ->
  matching_index example_table
    (columns (queries (start [matched_query; unmatched_query]))) row
    = inr ind ->
  length ind <= 1.
Proof.
  intros Hrow Hm. simpl in Hrow.
  apply elem_of_cons in Hrow as [->|Hrow].
  { vm_compute in Hm. inversion Hm. simpl. lia. }
  apply elem_of_cons in Hrow as [->|Hrow].
  { vm_compute in Hm. inversion Hm. simpl. lia. }
  by apply elem_of_nil in Hrow.
Defined.

Lemma lookup_without_duplicates_ignores_entropy_witness :
  (forall entropy',
     _lookup_targets_from_dataframe entropy' [yield_target MAX] example_table
       "best" (start [matched_query; unmatched_query]) =
     _lookup_targets_from_dataframe zero_entropy [yield_target MAX]
       example_table "best" (start [matched_query; unmatched_query])) /\
  (forall w' r,
     _lookup_targets_from_dataframe zero_entropy [yield_target MAX]
       example_table "best" (start [matched_query; unmatched_query])
       = (w', r) ->
     warnings w' = warnings (start [matched_query; unmatched_query]) /\
     draws w' = draws (start [matched_query; unmatched_query])).
Proof.
  apply (lookup_without_duplicates_ignores_entropy zero_entropy
           [yield_target MAX] example_table "best"
           (start [matched_query; unmatched_query])).
  - discriminate.
  - apply example_queries_match_at_most_once.
Defined.

Lemma missing_target_column_never_resolves_witness :
  exists w' e,
    _lookup_targets_from_dataframe zero_entropy
      [mkTarget "Purity" MAX (mkInterval 0 1)] example_table "mean"
      (start [matched_query]) = (w', inl e) /\
    queries w' = queries (start [matched_query]).
Proof.
  apply (missing_target_column_never_resolves zero_entropy
           [mkTarget "Purity" MAX (mkInterval 0 1)] example_table "mean"
           (start [matched_query]) (mkTarget "Purity" MAX (mkInterval 0 1))).
  - discriminate.
  - by left.
  - simpl. intros H.
    repeat (apply elem_of_cons in H as [H|H]; [discriminate|]).
    by apply elem_of_nil in H.
Defined.

Lemma example_yield_numeric md t :
  t ∈ [yield_target md] ->
  exists s qs, loc_column example_table (name t) = inr s /\
               numeric_values s = inr qs.
Proof.
  intros Ht. apply list_elem_of_singleton in Ht. subst t.
  by eexists _, _.
Defined.

Lemma example_yield_max_column t :
  t ∈ [yield_target MAX] ->
  mode t <> MATCH /\
  exists s qs, is_column example_table (name t) s /\ numbers_of s qs.
Proof.
  intros Ht. split; [|by eapply example_yield_is_column].
  apply list_elem_of_singleton in Ht. by subst t.
Defined.

Lemma random_imputation_is_one_table_row_witness :
  exists w' vals,
    _impute_lookup zero_entropy unmatched_query example_table
      [yield_target MATCH] "random" (start [unmatched_query])
    = (w', inr vals).
Proof.
  apply (proj2 (proj2 (random_imputation_is_one_table_row zero_entropy
           unmatched_query example_table [yield_target MATCH]
           (start [unmatched_query])))).
  - discriminate.
  - apply example_yield_numeric.
Defined.

Lemma worst_imputation_max_min_witness :
  exists vals,
    _impute_lookup zero_entropy unmatched_query example_table
      [yield_target MAX] "worst" (start [unmatched_query])
    = (start [unmatched_query], inr vals) /\
    length vals = 1 /\
    forall k t s qs,
      [yield_target MAX] !! k = Some t ->
      is_column example_table (name t) s ->
      numbers_of s qs ->
      exists v, vals !! k = Some v /\ is_worst_of (mode t) qs v.
Proof.
  apply (worst_imputation_max_min zero_entropy unmatched_query example_table
           [yield_target MAX] (start [unmatched_query])).
  - discriminate.
  - apply example_yield_max_column.
Defined.

Lemma worst_imputation_match_raises_witness :
  exists e,
    _impute_lookup zero_entropy unmatched_query example_table
      [yield_target MAX; yield_target MATCH] "worst" (start [unmatched_query])
    = (start [unmatched_query], inl e).
Proof.
  apply (worst_imputation_match_raises zero_entropy unmatched_query
           example_table [yield_target MAX; yield_target MATCH]
           (start [unmatched_query])).
  exists (yield_target MATCH). split; [right; by left | done].
Defined.

Lemma best_dominates_worst_witness :
  exists bvals wvals,
    _impute_lookup zero_entropy unmatched_query example_table
      [yield_target MAX] "best" (start [unmatched_query])
    = (start [unmatched_query], inr bvals) /\
    _impute_lookup zero_entropy unmatched_query example_table
      [yield_target MAX] "worst" (start [unmatched_query])
    = (start [unmatched_query], inr wvals) /\
    forall k t s q qs,
      [yield_target MAX] !! k = Some t ->
      is_column example_table (name t) s ->
      numbers_of s (q :: qs) ->
      exists b wv,
        bvals !! k = Some (VNum b) /\ wvals !! k = Some (VNum wv) /\
        match mode t with
        | MAX => (wv <= b)%Q
        | MIN => (b <= wv)%Q
        | MATCH => False
        end.
Proof.
  apply (best_dominates_worst zero_entropy unmatched_query example_table
           [yield_target MAX] (start [unmatched_query])).
  - discriminate.
  - apply example_yield_max_column.
Defined.

Lemma callable_success_assigns_by_position_witness :
  exists w',
    _lookup_targets_from_callable [yield_target MAX] sum_of_parameters
      (start [matched_query; unmatched_query]) = (w', inr tt) /\
    warnings w' = warnings (start [matched_query; unmatched_query]) /\
    draws w' = draws (start [matched_query; unmatched_query]) /\
    (forall i c, c ∉ map name [yield_target MAX] ->
       at_ (queries w') i c =
       at_ (queries (start [matched_query; unmatched_query])) i c) /\
    (forall i row vs k t,
       data (queries (start [matched_query; unmatched_query])) !! i
         = Some row ->
       sum_of_parameters row = inr vs ->
       [yield_target MAX] !! k = Some t ->
       exists v, vs !! k = Some v /\ at_ (queries w') i (name t) = Some v).
Proof.
  apply (callable_success_assigns_by_position [yield_target MAX]
           sum_of_parameters (start [matched_query; unmatched_query])).
  - repeat constructor.
  - discriminate.
  - simpl. apply NoDup_singleton.
  - simpl. lia.
  - intros row Hrow. simpl in Hrow.
    apply elem_of_cons in Hrow as [->|Hrow]; [by eexists|].
    apply elem_of_cons in Hrow as [->|Hrow]; [by eexists|].
    by apply elem_of_nil in Hrow.
Defined.

Lemma callable_failure_leaves_state_witness :
  (_lookup_targets_from_callable [yield_target MAX] two_values
     (start [matched_query])).1 = start [matched_query].
Proof.
  apply (callable_failure_leaves_state [yield_target MAX] two_values
           (start [matched_query]) _ (AssertionError WrongTargetCount)).
  reflexivity.
Defined.

Lemma script_ranges_ordered low high :
  (low, high) ∈ script_ranges -> (low <= high)%Z.
Proof.
  unfold script_ranges. intros H.
  repeat (apply elem_of_cons in H as [H|H]; [inversion H; lia|]).
  by apply elem_of_nil in H.
Defined.

Lemma scaled_sample_within_ranges_witness :
  exists out,
    scale_sample script_ranges [[1 # 16; 1 # 2; 1; 0]%Q] = Some out /\
    length out = 1 /\
    forall i row k low high,
      out !! i = Some row -> script_ranges !! k = Some (low, high) ->
      exists z, row !! k = Some (inject_Z z) /\ (low <= z <= high)%Z.
Proof.
  apply (proj1 (scaled_sample_within_ranges script_ranges
                  [[1 # 16; 1 # 2; 1; 0]%Q] script_ranges_ordered)).
  intros params Hp. apply list_elem_of_singleton in Hp. subst params.
  split; [reflexivity|].
  intros u Hu.
  repeat (apply elem_of_cons in Hu as [->|Hu]; [split; discriminate|]).
  by apply elem_of_nil in Hu.
Defined.

(** ** Imputation on an empty table, and mode ["mean"] end to end *)

Lemma loc_column_empty lookup c :
  data lookup = [] -> c ∈ columns lookup -> loc_column lookup c = inr [].
Proof.
  intros Hd Hc. unfold loc_column.
  destruct (get_loc_elem _ _ Hc) as (j & ->). simpl. by rewrite Hd.
Qed.

Lemma Forall2_all_nan {A} (l : list A) (vs : list value) :
  Forall2 (fun _ v => v = VNaN) l vs -> vs = map (fun _ => VNaN) l.
Proof. induction 1 as [|a v l vs -> _ IH]; simpl; [done | by rewrite IH]. Qed.

Section ImputationProperties.

Variable entropy : nat -> nat.

(** X16. On a reference table without rows that has the target columns,
    mode ["mean"] returns the missing value for every target, while modes
    ["best"] and ["worst"] raise as soon as there is a target: the extremum
    of a column without entries is the Python float [nan], which has no
    [flatten], and the exception is [AttributeError] when the first target
    has mode [MAX] or [MIN]. *)
Theorem imputation_on_empty_table row lookup targets w :
  data lookup = [] ->
  (forall t, t ∈ targets -> name t ∈ columns lookup) ->
  _impute_lookup entropy row lookup targets "mean" w
    = (w, inr (map (fun _ => VNaN) targets)) /\
  (targets <> [] ->
   (exists e,
      _impute_lookup entropy row lookup targets "best" w = (w, inl e)) /\
   (exists e,
      _impute_lookup entropy row lookup targets "worst" w = (w, inl e))) /\
  (forall t targets', targets = t :: targets' -> mode t <> MATCH ->
   _impute_lookup entropy row lookup targets "best" w
     = (w, inl AttributeError) /\
   _impute_lookup entropy row lookup targets "worst" w
     = (w, inl AttributeError)).
Proof.
  intros Hd Hcols. split; [|split].
  - unfold _impute_lookup. simpl. unfold lift.
    rewrite (rmap_map _ (fun _ => []) (map name targets)).
    + simpl. rewrite (rmap_map _ (fun _ => VNaN)).
      * by rewrite !map_map.
      * intros s Hs. by apply list_elem_of_fmap in Hs as (c & -> & _).
    + intros c Hc. apply list_elem_of_fmap in Hc as (t & -> & Ht).
      apply loc_column_empty; auto.
  - intros Hne. destruct targets as [|t targets']; [done|].
    pose proof (loc_column_empty lookup (name t) Hd
                  (Hcols t (list_elem_of_here _ _))) as Hc.
    unfold _impute_lookup. simpl. unfold lift, best_target, worst_target.
    rewrite Hc. split; destruct (mode t); simpl; by eexists.
  - intros t targets' -> Hm.
    pose proof (loc_column_empty lookup (name t) Hd
                  (Hcols t (list_elem_of_here _ _))) as Hc.
    unfold _impute_lookup. simpl. unfold lift, best_target, worst_target.
    rewrite Hc. split; destruct (mode t); simpl; done.
Qed.

Lemma mean_values_returned row lookup targets w :
  (forall t, t ∈ targets ->
     exists s qs, loc_column lookup (name t) = inr s /\
                  numeric_values s = inr qs) ->
  exists vals,
    _impute_lookup entropy row lookup targets "mean" w = (w, inr vals).
Proof.
  intros Hcols.
  destruct (rmap_total (loc_column lookup) (map name targets)) as (cols & Hc).
  { intros c Hin. apply list_elem_of_fmap in Hin as (t & -> & Ht).
    destruct (Hcols t Ht) as (s & _ & -> & _). by eexists. }
  destruct (rmap_total series_mean cols) as (vals & Hv).
  { intros s Hs.
    destruct (rmap_elem_inv _ _ _ _ Hc Hs) as (c & Hin & Hcol).
    apply list_elem_of_fmap in Hin as (t & -> & Ht).
    destruct (Hcols t Ht) as (s' & qs & Hs' & Hqs).
    assert (s' = s) as -> by congruence.
    destruct (series_mean_spec s qs Hqs) as (v & -> & _). by eexists. }
  exists vals. unfold _impute_lookup. simpl. unfold lift. rewrite Hc. simpl.
  by rewrite Hv.
Qed.

Lemma mean_values_zip row lookup targets w w' vals c v :
  _impute_lookup entropy row lookup targets "mean" w = (w', inr vals) ->
  (c, v) ∈ zip (map name targets) vals ->
  exists s, loc_column lookup c = inr s /\ series_mean s = inr v.
Proof.
  unfold _impute_lookup. simpl. unfold lift. intros H Hin.
  inversion H as [[Hw Hr]].
  apply rbind_inr in Hr as (cols & Hc & Hv).
  apply list_elem_of_lookup in Hin as (k & Hk).
  rewrite lookup_zip_with in Hk.
  destruct (map name targets !! k) as [c'|] eqn:Ec; [|done]. simpl in Hk.
  destruct (vals !! k) as [v'|] eqn:Ev; [|done]. inversion Hk; subst.
  destruct (rmap_lookup _ _ _ _ _ Hc Ec) as (s & Hs & Hck).
  destruct (rmap_lookup _ _ _ _ _ Hv Hck) as (v' & Hm & Hvk).
  exists s. split; [done|]. congruence.
Qed.

(** X17. With impute mode ["mean"] and targets of distinct names, a lookup
    in a table that has every query column and whose target columns hold
    numbers and missing values only returns; and a query row that no table
    row matches then holds, for every target, the arithmetic mean of the
    numbers of the target's table column.  Matching, the column of a
    target and the cell of the query frame are read cell by cell from the
    rows of the frames. *)
Theorem mean_mode_lookup_resolves targets lookup w :
  NoDup (map name targets) ->
  wf_frame (queries w) ->
  (forall c, c ∈ columns (queries w) -> c ∈ columns lookup) ->
  (forall t, t ∈ targets ->
     exists s qs, is_column lookup (name t) s /\ numbers_of s qs) ->
  exists w',
    _lookup_targets_from_dataframe entropy targets lookup "mean" w
      = (w', inr tt) /\
    forall i row,
      data (queries w) !! i = Some row ->
      unmatched lookup (columns (queries w)) row ->
      forall t s qs,
        t ∈ targets -> is_column lookup (name t) s -> numbers_of s qs ->
        exists v, has_cell (queries w') i (name t) v /\ is_mean_of qs v.
Proof.
  intros Hnd Hwf Hq Hcols.
  assert (forall t, t ∈ targets ->
            exists s qs, loc_column lookup (name t) = inr s /\
                         numeric_values s = inr qs) as Hloc.
  { intros t Ht. destruct (Hcols t Ht) as (s & qs & Hs & Hqs).
    exists s, qs. split; [by apply is_column_loc | by apply numbers_of_numeric]. }
  assert (forall t, t ∈ targets -> name t ∈ columns lookup) as Hnames.
  { intros t Ht. destruct (Hloc t Ht) as (s & _ & Hs & _).
    unfold loc_column in Hs. apply rbind_inr in Hs as (j & Hj & _).
    eapply list_elem_of_lookup_2, get_loc_lookup, Hj. }
  destruct (for_each_total
    (match_vals_of entropy targets lookup "mean" (columns (queries w)))
    (data (queries w)) w) as (w2 & arr & Hloop).
  { intros row _ w1.
    destruct (matching_index_total lookup (columns (queries w)) row Hq)
      as ([|i0 ind] & Hm).
    - rewrite match_vals_of_none by done. simpl.
      destruct (mean_values_returned row lookup targets w1 Hloc) as (vals & ->).
      by eexists _, _.
    - by eapply match_vals_of_matched. }
  eexists. split.
  { unfold _lookup_targets_from_dataframe, bind, get_queries.
    rewrite Hloop. by apply loc_setitem_distinct. }
  simpl.
  pose proof (keeps_for_each _ (data (queries w))
    (keeps_match_vals_of entropy targets lookup "mean" (columns (queries w)))
    w) as Hk.
  rewrite Hloop in Hk. simpl in Hk. rewrite Hk.
  apply for_each_inr in Hloop as (Hlen & Hall).
  intros i row Hrow Hun t s qs Ht Hs Hqs.
  apply is_column_loc in Hs. apply numbers_of_numeric in Hqs.
  destruct (matching_index_total lookup (columns (queries w)) row Hq)
    as (ind & Hnone).
  pose proof (unmatched_index _ _ _ _ Hun Hnone) as ->.
  destruct (Hall i row Hrow) as (w1 & w1' & vals & Hbody & Hvals).
  pose proof (match_vals_of_length _ _ _ _ _ _ _ _ _ Hbody) as Hl.
  rewrite match_vals_of_none in Hbody by done. simpl in Hbody.
  destruct (write_columns_at (queries w) (map name targets) arr i (name t)
              (is_mean_of qs) vals) as (v & Hat & Hv).
  - done.
  - by eapply lookup_lt_Some.
  - done.
  - by rewrite Hl, length_map.
  - by apply elem_of_names.
  - intros v' Hin.
    destruct (mean_values_zip _ _ _ _ _ _ _ _ Hbody Hin) as (s' & Hs' & Hm).
    assert (s' = s) as -> by congruence.
    destruct (series_mean_spec s qs Hqs) as (v'' & Hm' & Hspec). congruence.
  - exists v. split; [by apply at_has_cell | done].
Qed.

End ImputationProperties.

(** X18. A callable that returns the empty tuple for every row passes the
    count check against a single target: the call returns and the target
    column holds the empty tuple in every row of the query frame. *)
Theorem callable_empty_tuples_fill_single_target t f w :
  wf_frame (queries w) ->
  data (queries w) <> [] ->
  (forall row, row ∈ data (queries w) -> f row = inr []) ->
  exists w',
    _lookup_targets_from_callable [t] f w = (w', inr tt) /\
    forall i, i < length (data (queries w)) ->
      at_ (queries w') i (name t) = Some VTuple0.
Proof.
  intros Hwf Hne Hf.
  assert (exists tuples,
            rmap f (data (queries w)) = inr tuples /\
            length tuples = length (data (queries w)) /\
            tuple_width tuples = 0) as (tuples & Htup & Hlt & Hw).
  { exists (map (fun _ => []) (data (queries w))). split; [|split].
    - by apply rmap_map.
    - by rewrite length_map.
    - apply tuple_width_const.
      + by destruct (data (queries w)).
      + apply Forall_map, Forall_forall. done. }
  destruct (assign_targets_spec (map (fun _ : list value => [VTuple0]) tuples)
              [t] 0 w) as
    (w' & Hrun & _ & _ & _ & Hsame); [done| |apply NoDup_singleton|].
  { by rewrite length_map. }
  exists w'. split.
  - unfold _lookup_targets_from_callable, bind at 1, get_queries.
    destruct (data (queries w)) as [|r rows] eqn:Hd; [done|].
    unfold bind, lift. rewrite Htup.
    unfold measured_targets_of, split_columns. cbn -[Nat.eqb]. rewrite Hw.
    cbn. exact Hrun.
  - intros i Hi.
    destruct (lookup_lt_is_Some_2
                (map (fun _ : list value => [VTuple0]) tuples) i) as (m & Hm).
    { by rewrite length_map, Hlt. }
    rewrite (Hsame i m 0 t Hm eq_refl).
    rewrite list_lookup_fmap in Hm.
    destruct (tuples !! i); [|done]. by inversion Hm.
Qed.

Lemma imputation_on_empty_table_witness :
  _impute_lookup zero_entropy unmatched_query
    (mkFrame ["T"; "flow"; "Yield"] []) [yield_target MAX] "mean"
    (start [unmatched_query])
  = (start [unmatched_query], inr [VNaN]) /\
  _impute_lookup zero_entropy unmatched_query
    (mkFrame ["T"; "flow"; "Yield"] []) [yield_target MAX] "best"
    (start [unmatched_query])
  = (start [unmatched_query], inl AttributeError) /\
  _impute_lookup zero_entropy unmatched_query
    (mkFrame ["T"; "flow"; "Yield"] []) [yield_target MAX] "worst"
    (start [unmatched_query])
  = (start [unmatched_query], inl AttributeError).
Proof.
  assert (forall t, t ∈ [yield_target MAX] ->
            name t ∈ columns (mkFrame ["T"; "flow"; "Yield"] [])) as Hcols.
  { intros t Ht. apply list_elem_of_singleton in Ht. subst t. simpl.
    right. right. by left. }
  destruct (imputation_on_empty_table zero_entropy unmatched_query
              (mkFrame ["T"; "flow"; "Yield"] []) [yield_target MAX]
              (start [unmatched_query]) eq_refl Hcols) as (Hmean & _ & Hrest).
  split; [exact Hmean|]. by apply (Hrest (yield_target MAX) []).
Defined.

Lemma mean_mode_lookup_resolves_witness :
  exists w',
    _lookup_targets_from_dataframe zero_entropy [yield_target MAX]
      example_table "mean" (start [matched_query; unmatched_query])
    = (w', inr tt) /\
    forall i row,
      data (queries (start [matched_query; unmatched_query])) !! i
        = Some row ->
      unmatched example_table
        (columns (queries (start [matched_query; unmatched_query]))) row ->
      forall t s qs,
        t ∈ [yield_target MAX] ->
        is_column example_table (name t) s -> numbers_of s qs ->
        exists v, has_cell (queries w') i (name t) v /\ is_mean_of qs v.
Proof.
  apply (mean_mode_lookup_resolves zero_entropy [yield_target MAX]
           example_table (start [matched_query; unmatched_query])).
  - apply NoDup_singleton.
  - repeat constructor.
  - apply example_columns_present.
  - apply example_yield_is_column.
Defined.

Lemma callable_empty_tuples_fill_single_target_witness :
  exists w',
    _lookup_targets_from_callable [yield_target MAX] no_values
      (start [matched_query; unmatched_query]) = (w', inr tt) /\
    forall i,
      i < length (data (queries (start [matched_query; unmatched_query]))) ->
      at_ (queries w') i (name (yield_target MAX)) = Some VTuple0.
Proof.
  apply (callable_empty_tuples_fill_single_target (yield_target MAX) no_values
           (start [matched_query; unmatched_query])).
  - repeat constructor.
  - discriminate.
  - reflexivity.
Defined.
